(** * carlo/lib/rpc.js: the host/remote RPC bridge

    A shallow embedding of [src/lib/rpc.js]: the host-side [Server]
    (object registry, id minting, method discovery, dispatch) and the
    remote-side bootstrap ([EventEmitter] and [Client]).

    Conventions of the embedding.
    - JS [Map]s are [gmap]s; arrays are lists; a [push] appends.
    - Heap objects that the code reaches through several references (host
      objects, proxies, promises) live in a store, a list indexed by
      reference; the maps of the code hold references.
    - An exception is an [outcome]; the state reached at the throw is kept,
      as the mutations made before a JS throw are.
    - The two counters ([lastObjectId_], [lastId_]) are JS numbers that only
      ever go through [++] from 0; they are modelled in [N], which is exact
      for a JS number below 2^53.
    - Code that the file receives from outside (host methods, constructors,
      listeners, the page channel) is data of the model. A host method is a
      function of what it can read (the data properties and the private
      state of the objects of the heap), of its receiver and of the
      arguments; it yields the assignments it makes to properties of heap
      objects, the calls it makes of the receiver's [emit] and a
      completion. A host method does not reach the members of the Server
      (the catalogs are filled before the channel is active, the counter
      and the registry are the Server's own), it assigns data, and it
      leaves the prototypes alone. A listener is an identity whose calls
      are logged, [page_.evaluate] and [rpcSend] append to an outbox.
    - A property table lists the own properties of an object in the order
      of their creation, one entry per name; the order in which the engine
      enumerates them is computed from it ([Host.enumerate]).
    - [onMessage_] is handled one message at a time: the method that an
      invocation awaits has settled before the next message is taken. The
      create, lookup and dispose branches contain no [await]. *)

From Stdlib Require Import Ascii.
From stdpp Require Import gmap strings list pretty sorting.

Set Default Proof Using "Type".

(** ** JavaScript values, errors, completions *)

Module JS.

#[warnings="-register-all"]
Inductive value :=
| VUndef
| VNull
| VBool (b : bool)
| VNum (z : Z)
| VStr (s : string)
| VArr (l : list value).

(** ToBoolean. *)
Definition truthy (v : value) : bool :=
  match v with
  | VUndef | VNull => false
  | VBool b => b
  | VNum z => negb (z =? 0)%Z
  | VStr s => negb (String.eqb s "")
  | VArr _ => true
  end.

(** ToBoolean of a field that holds a string when present. *)
Definition truthy_name (o : option string) : bool :=
  match o with
  | Some s => negb (String.eqb s "")
  | None => false
  end.

(** A property key read from a field that may be absent:
    [o[undefined]] reads the property named "undefined". *)
Definition prop_key (o : option string) : string := default "undefined" o.

Inductive error :=
| TypeError (what : string)
| Raised (v : value).

Inductive outcome (A : Type) :=
| Ok (a : A)
| Throw (e : error).
Arguments Ok {A} a.
Arguments Throw {A} e.

Definition is_Ok {A} (o : outcome A) : bool :=
  match o with Ok _ => true | Throw _ => false end.

(** First-match lookup and in-place assignment in an ordered property
    table (own properties of an object, in property order). *)
Fixpoint assoc {V} (l : list (string * V)) (k : string) : option V :=
  match l with
  | [] => None
  | (k', v) :: l' => if String.eqb k' k then Some v else assoc l' k
  end.

Fixpoint assoc_set {V} (l : list (string * V)) (k : string) (v : V)
  : list (string * V) :=
  match l with
  | [] => [(k, v)]
  | (k', v') :: l' =>
      if String.eqb k' k then (k', v) :: l' else (k', v') :: assoc_set l' k v
  end.

End JS.
Import JS.

(** ** Wire messages

    Every message is a plain JS object; a field that a message does not
    carry is [None] ([VUndef] for [dispose], [RUndef] for [result]). *)

Module Wire.

Inductive result_t :=
| RUndef
| RDescr (methods : list string) (objectId : string)
| RValue (v : value).

Record message := Message {
  create : option string;
  lookup : option string;
  dispose : value;
  objectId : option string;
  method : option string;
  args : option (list value);
  id : option N;
  result : result_t
}.

Definition empty : message :=
  Message None None VUndef None None None None RUndef.

(** [{id, result: {methods, objectId}}] *)
Definition describe_reply (i : option N) (methods : list string)
    (oid : string) : message :=
  Message None None VUndef None None None i (RDescr methods oid).

(** [{id, objectId, result}] *)
Definition invoke_reply (i : option N) (oid : option string) (v : value)
  : message :=
  Message None None VUndef oid None None i (RValue v).

(** [{objectId, method, args}] *)
Definition event (oid : string) (m : option string) (a : list value)
  : message :=
  Message None None VUndef (Some oid) m (Some a) None RUndef.

(** [message.id = i] *)
Definition set_id (i : N) (m : message) : message :=
  Message (create m) (lookup m) (dispose m) (objectId m) (method m)
          (args m) (Some i) (result m).

End Wire.

(** The event messages that the closure of line 70 over [objectId] sends
    for a sequence of calls [(event, args)], in order. *)
Definition forwarded (objectId : string) (l : list (string * list value))
  : list Wire.message :=
  (λ '(event, args), Wire.event objectId (Some event) args) <$> l.

(** ** Host objects *)

Module Host.

(** What a host method can read of an object: its own properties that hold
    data, and its private state (what its closures and private fields
    keep). *)
Record fields := Fields {
  data : list (string * value);
  private : value
}.

(** What a call of a host method does: the receiver's new private state;
    the assignments [object[k] = v] it made to objects of the heap, the
    receiver or another, in order; the calls [(event, ...args)] it made of
    the function it found as the receiver's [emit], in order; and how it
    completed (for an async method: how its promise settled). *)
Record call_result := CallResult {
  new_state : value;
  writes : list (nat * string * value);
  emitted : list (string * list value);
  completion : outcome value
}.

(** A host method: from what it can read of the heap, the reference of
    its receiver and the arguments. *)
Definition hostfn : Type := list fields → nat → list value → call_result.

Inductive hostval :=
| HUndef
| HData (v : value)
| HFun (f : hostfn)
| HForward (objectId : string).
(** [HForward objectId] is the closure of line 70,
    [(method, ...args) => { this.sendMessage_({objectId, method, args}) }]. *)

(** [typeof v === 'function'] *)
Definition is_function (v : hostval) : bool :=
  match v with
  | HFun _ | HForward _ => true
  | _ => false
  end.

Abbreviation props := (list (string * hostval)).

(** An object: its own properties, its prototype chain (immediate
    prototype first; empty for an object without prototype, as
    [Object.create(null)] makes), and its private state. A property table
    lists the string-keyed own properties in the order of their creation;
    the value of a property is what reading it yields. *)
Record object := Object {
  own : props;
  protos : list props;
  state : value
}.

(** [o.__proto__]: [None] is [undefined], what an object without prototype
    yields. *)
Definition proto (o : object) : option props := head (protos o).

(** An array index: the canonical decimal form of an integer below
    2^32 - 1. *)
Definition digit (c : ascii) : option N := N.of_nat <$> Ascii.is_nat c.

Fixpoint digits (acc : N) (k : string) : option N :=
  match k with
  | EmptyString => Some acc
  | String c k' => d ← digit c; digits (10 * acc + d) k'
  end.

Definition array_index (k : string) : option N :=
  n ← digits 0 k;
  if bool_decide (pretty n = k ∧ (n < 2 ^ 32 - 1)%N) then Some n else None.

Definition index_le (a b : N * (string * hostval)) : Prop := (a.1 ≤ b.1)%N.

#[global] Instance index_le_dec : RelDecision index_le.
Proof. intros a b. unfold index_le. apply _. Defined.

(** The order in which the engine goes through the own string keys of an
    object: the array indices in ascending numeric order, then the other
    names in the order of their creation. [Object.getOwnPropertyDescriptors]
    fills its result in that order and [for ... in] visits it in that
    order. *)
Definition enumerate (p : props) : props :=
  (merge_sort index_le (omap (λ e, n ← array_index e.1; Some (n, e)) p)).*2
  ++ filter (λ e, array_index e.1 = None) p.

Fixpoint get_chain (chain : list props) (k : string) : hostval :=
  match chain with
  | [] => HUndef
  | p :: rest =>
      match assoc p k with
      | Some v => v
      | None => get_chain rest k
      end
  end.

(** [o[k]] *)
Definition get (o : object) (k : string) : hostval :=
  get_chain (own o :: protos o) k.

(** [o[k] = v] *)
Definition set (o : object) (k : string) (v : hostval) : object :=
  Object (assoc_set (own o) k v) (protos o) (state o).

Definition set_state (o : object) (st : value) : object :=
  Object (own o) (protos o) st.

(** What a host method can read of the heap. *)
Definition view (heap : list object) : list fields :=
  (λ o, Fields (omap (λ e, match e.2 with
                           | HData v => Some (e.1, v)
                           | _ => None
                           end) (own o))
               (state o)) <$> heap.

(** One assignment [object[k] = v] of a host method, and a sequence of
    them. *)
Definition write (heap : list object) (w : nat * string * value)
  : list object :=
  match heap !! w.1.1 with
  | Some o => <[w.1.1 := set o w.1.2 (HData w.2)]> heap
  | None => heap
  end.

Definition write_all (ws : list (nat * string * value))
    (heap : list object) : list object :=
  foldl write heap ws.

(** A constructor [c]: [c.prototype.constructor.name], [c.prototype], the
    rest of the chain, and what [new c()] does: the own properties and the
    state of the new object, or a throw. *)
Record class := Class {
  name : string;
  prototype : props;
  parents : list props;
  construct : outcome (props * value)
}.

End Host.

(** ** The Server *)

Module Server.
Import Host.

Record t := Make {
  lastObjectId_ : N;
  factories_ : gmap string class;
  services_ : gmap string nat;
  objects_ : gmap string (option nat);
  heap : list object;
  outbox : list Wire.message;
  minted : list string
}.
(** [services_] and [objects_] hold references into [heap]; an entry of
    [objects_] can hold [undefined] ([None]), see [onMessage_].
    [outbox]: the messages handed to [page_.evaluate], oldest first.
    [minted]: history of the ObjectIds given to [objects_.set] at line 69,
    oldest first. *)

(** [new Server()] *)
Definition new : t := Make 0 ∅ ∅ ∅ [] [] [].

Definition M (A : Type) : Type := t → outcome A * t.

Definition ret {A} (a : A) : M A := λ s, (Ok a, s).
Definition throw {A} (e : error) : M A := λ s, (Throw e, s).
Definition bind {A B} (m : M A) (k : A → M B) : M B :=
  λ s, match m s with
       | (Ok a, s') => k a s'
       | (Throw e, s') => (Throw e, s')
       end.

Declare Scope server_scope.
Delimit Scope server_scope with server.
Notation "'let*' x := m 'in' k" := (bind m (λ x, k))
  (at level 10, x pattern, m at level 100, k at level 200) : server_scope.
Notation "m ;; k" := (bind m (λ _, k))
  (at level 100, k at level 200, right associativity) : server_scope.
Local Open Scope server_scope.

(** [exposeFactory(c)] *)
Definition exposeFactory (c : class) (s : t) : t :=
  Make (lastObjectId_ s) (<[name c := c]> (factories_ s)) (services_ s)
       (objects_ s) (heap s) (outbox s) (minted s).

(** A host object comes into existence outside the Server. *)
Definition alloc (o : object) (s : t) : nat * t :=
  (length (heap s),
   Make (lastObjectId_ s) (factories_ s) (services_ s) (objects_ s)
        (heap s ++ [o]) (outbox s) (minted s)).

(** [exposeObject(name, object)] *)
Definition exposeObject (name : string) (object : nat) (s : t) : t :=
  Make (lastObjectId_ s) (factories_ s) (<[name := object]> (services_ s))
       (objects_ s) (heap s) (outbox s) (minted s).

(** [sendMessage_(message)]: [this.page_.evaluate(...)] *)
Definition sendMessage_ (message : Wire.message) : M unit :=
  λ s, (Ok (),
        Make (lastObjectId_ s) (factories_ s) (services_ s) (objects_ s)
             (heap s) (outbox s ++ [message]) (minted s)).

(** [describe_(o)]: [Object.getOwnPropertyDescriptors(undefined)]
    throws. *)
Definition describe_ (o : object) : outcome (list string) :=
  match proto o with
  | None => Throw (TypeError "Cannot convert undefined or null to object")
  | Some proto =>
      Ok (foldl (λ methods '(name, _),
                   if String.eqb name "constructor" then methods
                   else if is_function (get_chain [proto] name)
                        then methods ++ [name]
                        else methods)
                [] (enumerate proto))
  end.

(** [kind#name#${++this.lastObjectId_}#] *)
Definition ObjectId (kind name : string) (n : N) : string :=
  kind +:+ "#" +:+ name +:+ "#" +:+ pretty n +:+ "#".

Definition mint (kind name : string) : M string :=
  λ s, let n := N.succ (lastObjectId_ s) in
       (Ok (ObjectId kind name n),
        Make n (factories_ s) (services_ s) (objects_ s) (heap s)
             (outbox s) (minted s)).

(** [new c()], with [c = this.factories_.get(name)] *)
Definition new_ (c : option class) : M nat :=
  λ s, match c with
       | None => (Throw (TypeError "c is not a constructor"), s)
       | Some c =>
           match construct c with
           | Throw e => (Throw e, s)
           | Ok (own, st) =>
               (Ok (length (heap s)),
                Make (lastObjectId_ s) (factories_ s) (services_ s)
                     (objects_ s)
                     (heap s ++ [Object own (prototype c :: parents c) st])
                     (outbox s) (minted s))
           end
       end.

(** [this.objects_.set(objectId, object)] *)
Definition objects_set (objectId : string) (object : option nat) : M unit :=
  λ s, (Ok (),
        Make (lastObjectId_ s) (factories_ s) (services_ s)
             (<[objectId := object]> (objects_ s)) (heap s) (outbox s)
             (minted s ++ [objectId])).

(** [this.objects_.delete(message.objectId)]; no key of the map is
    [undefined], so an absent [objectId] deletes nothing. *)
Definition objects_delete (objectId : option string) : M unit :=
  λ s, (Ok (),
        match objectId with
        | None => s
        | Some k =>
            Make (lastObjectId_ s) (factories_ s) (services_ s)
                 (delete k (objects_ s)) (heap s) (outbox s) (minted s)
        end).

(** [this.objects_.get(message.objectId)] *)
Definition objects_get (objectId : option string) (s : t) : option nat :=
  k ← objectId; mjoin (objects_ s !! k).

Definition heap_set (r : nat) (o : object) : M unit :=
  λ s, (Ok (),
        Make (lastObjectId_ s) (factories_ s) (services_ s) (objects_ s)
             (<[r := o]> (heap s)) (outbox s) (minted s)).

(** [object.emit = (method, ...args) => {...}] *)
Definition set_emit (object : option nat) (objectId : string) : M unit :=
  λ s, match object ≫= (λ r, heap s !! r) with
       | None =>
           (Throw (TypeError "Cannot set property 'emit' of undefined"), s)
       | Some o =>
           heap_set (default 0 object) (set o "emit" (HForward objectId)) s
       end.

(** The body of the closure [HForward objectId]. *)
Definition forward (objectId : string) (method : option string)
    (args : list value) : M unit :=
  sendMessage_ (Wire.event objectId method args).

(** Host code calls [object.emit(event, ...args)]. An [emit] that is not
    the Server's closure is the object's own emitter, which reaches host
    listeners only. *)
Definition emit (object : nat) (event : string) (args : list value)
  : M unit :=
  λ s, match heap s !! object with
       | None => (Throw (TypeError "no such object"), s)
       | Some o =>
           match get o "emit" with
           | HForward objectId => forward objectId (Some event) args s
           | HFun _ => (Ok (), s)
           | _ => (Throw (TypeError "object.emit is not a function"), s)
           end
       end.

(** What the calls [l] that a method made of the [emit] of its receiver
    [o] hand to the page: the closure of line 70 sends one event per call;
    another [emit] is the object's own emitter, which reaches host
    listeners only. *)
Definition emissions (o : object) (l : list (string * list value))
  : list Wire.message :=
  match get o "emit" with
  | HForward objectId => forwarded objectId l
  | _ => []
  end.

Definition send_all (messages : list Wire.message) : M unit :=
  λ s, (Ok (),
        Make (lastObjectId_ s) (factories_ s) (services_ s) (objects_ s)
             (heap s) (outbox s ++ messages) (minted s)).

Definition heap_put (heap' : list object) : M unit :=
  λ s, (Ok (),
        Make (lastObjectId_ s) (factories_ s) (services_ s) (objects_ s)
             heap' (outbox s) (minted s)).

(** The event name slot of the wire holds a string. *)
Definition event_name (a : list value) : option string :=
  match a with
  | VStr s :: _ => Some s
  | _ => None
  end.

(** [await object[message.method](...message.args)]: the method runs on
    the heap with the registered object as its receiver, its calls of the
    receiver's [emit] reach the page, its assignments reach the heap, and
    the call completes as the method does. *)
Definition call (object : option nat) (method : option string)
    (args : option (list value)) : M value :=
  λ s, match object ≫= (λ r, heap s !! r) with
       | None =>
           (Throw (TypeError "Cannot read property of undefined"), s)
       | Some o =>
           let this := default 0 object in
           match get o (prop_key method), args with
           | (HFun _ | HForward _), None =>
               (Throw (TypeError "message.args is not iterable"), s)
           | HFun f, Some a =>
               let r := f (view (heap s)) this a in
               (send_all (emissions o (emitted r)) ;;
                heap_put (write_all (writes r)
                            (<[this := set_state o (new_state r)]> (heap s))) ;;
                match completion r with
                | Ok v => ret v
                | Throw e => throw e
                end) s
           | HForward objectId, Some a =>
               (forward objectId (event_name a) (tail a) ;; ret VUndef) s
           | _, _ =>
               (Throw (TypeError "object[message.method] is not a function"),
                s)
           end
       end.

(** [onMessage_(message)] *)
Definition onMessage_ (message : Wire.message) : M unit :=
  if truthy_name (Wire.create message) || truthy_name (Wire.lookup message)
  then
    let* (objectId, object) :=
      if truthy_name (Wire.create message) then
        let name := default "" (Wire.create message) in
        let* c := (λ s, (Ok (factories_ s !! name), s)) in
        let* object := new_ c in
        let* objectId := mint "create" name in
        ret (objectId, Some object)
      else
        let name := default "" (Wire.lookup message) in
        let* object := (λ s, (Ok (services_ s !! name), s)) in
        let* objectId := mint "lookup" name in
        ret (objectId, object) in
    objects_set objectId object ;;
    set_emit object objectId ;;
    let* methods :=
      (λ s, (describe_ (default (Object [] [] VUndef)
                                (object ≫= (λ r, heap s !! r))), s)) in
    sendMessage_ (Wire.describe_reply (Wire.id message) methods objectId)
  else if truthy (Wire.dispose message) then
    objects_delete (Wire.objectId message)
  else
    let* object := (λ s, (Ok (objects_get (Wire.objectId message) s), s)) in
    let* result := call object (Wire.method message) (Wire.args message) in
    sendMessage_
      (Wire.invoke_reply (Wire.id message) (Wire.objectId message) result).

(** The channel delivers the messages one by one; a handler that throws
    rejects its own promise and the next message is handled in the state
    it left. *)
Definition run (messages : list Wire.message) (s : t) : t :=
  foldl (λ s message, (onMessage_ message s).2) s messages.

End Server.

(** ** The bootstrap: EventEmitter *)

Module EventEmitter.

(** A listener is a function of the page; the model keeps its identity. *)
Definition handler : Type := nat.

(** An event name is a string, or [undefined] when absent. *)
Definition event_t : Type := option string.

Record t := Make {
  objectId_ : option string;
  listeners_ : gmap event_t (list handler)
}.

(** [new EventEmitter(objectId)] *)
Definition new (objectId : option string) : t := Make objectId ∅.

(** [on(event, handler)] *)
Definition on (event : event_t) (handler : handler) (this : t) : t :=
  let '(listeners, this) :=
    match listeners_ this !! event with
    | Some listeners => (listeners, this)
    | None => ([], Make (objectId_ this) (<[event := []]> (listeners_ this)))
    end in
  Make (objectId_ this)
       (<[event := listeners ++ [handler]]> (listeners_ this)).

(** [off(event, handler)]: the filtered array is bound to the local
    [listeners] and the method ends. *)
Definition off (event : event_t) (handler : handler) (this : t) : t :=
  match listeners_ this !! event with
  | None => this
  | Some listeners =>
      let listeners := filter (λ a, a ≠ handler) listeners in
      this
  end.

(** [emit_(event, ...args)]: the listener calls it makes, in order. *)
Definition emit_ (event : event_t) (args : list value) (this : t)
  : list (handler * list value) :=
  match listeners_ this !! event with
  | None => []
  | Some listeners => (λ listener, (listener, args)) <$> listeners
  end.

End EventEmitter.

(** ** The bootstrap: Client *)

Module Client.

(** A proxy: an EventEmitter with one own property per method stub and
    [dispose]. [stubs] are the names assigned at line 161, in order. *)
Record proxy := Proxy {
  emitter : EventEmitter.t;
  stubs : list string
}.

(** Line 161 assigns [object[method]] for every described name. For the
    name [__proto__] that assignment makes the stub the prototype of the
    proxy, in place of [EventEmitter.prototype]: [on], [off] and [emit_]
    are then out of reach, unless a stub of that name was assigned. *)
Definition inherits (p : proxy) : bool :=
  bool_decide ("__proto__" ∉ stubs p).

Record call := Call {
  receiver : nat;
  listener : EventEmitter.handler;
  arguments : list value
}.

Record t := Make {
  lastId_ : N;
  callbacks_ : gmap N nat;
  objects_ : gmap (option string) nat;
  proxies : list proxy;
  promises : list (option Wire.result_t);
  sent : list Wire.message;
  calls : list call
}.
(** [callbacks_] maps a request id to the promise whose [fulfil] it holds;
    [promises] is the store of those promises, [None] while pending.
    [objects_] holds references into [proxies].
    [sent]: the messages handed to [rpcSend], oldest first.
    [calls]: the listener calls made so far, oldest first. *)

(** [new Client()] *)
Definition new : t := Make 0 ∅ ∅ [] [] [] [].

Definition M (A : Type) : Type := t → outcome A * t.

Definition ret {A} (a : A) : M A := λ c, (Ok a, c).
Definition throw {A} (e : error) : M A := λ c, (Throw e, c).
Definition bind {A B} (m : M A) (k : A → M B) : M B :=
  λ c, match m c with
       | (Ok a, c') => k a c'
       | (Throw e, c') => (Throw e, c')
       end.

Declare Scope client_scope.
Delimit Scope client_scope with client.
Notation "'let*' x := m 'in' k" := (bind m (λ x, k))
  (at level 10, x pattern, m at level 100, k at level 200) : client_scope.
Notation "m ;; k" := (bind m (λ _, k))
  (at level 100, k at level 200, right associativity) : client_scope.
Local Open Scope client_scope.

(** [sendMessage_(message)]; returns the new promise. *)
Definition sendMessage_ (message : Wire.message) : M nat :=
  λ c, let id := N.succ (lastId_ c) in
       let message := Wire.set_id id message in
       let result := length (promises c) in
       (Ok result,
        Make id (<[id := result]> (callbacks_ c)) (objects_ c) (proxies c)
             (promises c ++ [None]) (sent c ++ [message]) (calls c)).

(** [fulfil(result)] of promise [p]: settles it if it is pending. *)
Definition fulfil (p : nat) (result : Wire.result_t) : M unit :=
  λ c, (Ok (),
        match promises c !! p with
        | Some None =>
            Make (lastId_ c) (callbacks_ c) (objects_ c) (proxies c)
                 (<[p := Some result]> (promises c)) (sent c) (calls c)
        | _ => c
        end).

Definition proxy_set (r : nat) (p : proxy) : M unit :=
  λ c, (Ok (),
        Make (lastId_ c) (callbacks_ c) (objects_ c) (<[r := p]> (proxies c))
             (promises c) (sent c) (calls c)).

(** The stub of line 161, [(...args) => this.sendMessage_({method,
    objectId, args})], of the proxy wrapped for [objectId]. *)
Definition stub (method : string) (objectId : option string)
    (args : list value) : M nat :=
  sendMessage_
    (Wire.Message None None VUndef objectId (Some method) (Some args) None
                  Wire.RUndef).

(** [wrap_(objectId, methods)] *)
Definition wrap_ (objectId : option string) (methods : option (list string))
  : M nat :=
  λ c, let object := length (proxies c) in
       let c :=
         Make (lastId_ c) (callbacks_ c) (<[objectId := object]> (objects_ c))
              (proxies c ++ [Proxy (EventEmitter.new objectId) []])
              (promises c) (sent c) (calls c) in
       match methods with
       | None => (Throw (TypeError "methods is not iterable"), c)
       | Some methods =>
           (proxy_set object (Proxy (EventEmitter.new objectId) methods) ;;
            ret object) c
       end.

(** [object.dispose()] of the proxy wrapped for [objectId] *)
Definition dispose (objectId : option string) : M unit :=
  sendMessage_
    (Wire.Message None None (VStr "dispose") objectId None None None
                  Wire.RUndef) ;;
  λ c, (Ok (),
        Make (lastId_ c) (callbacks_ c) (delete objectId (objects_ c))
             (proxies c) (promises c) (sent c) (calls c)).

(** [create(service)] and [lookup(name)] up to their [await]. *)
Definition create (service : option string) : M nat :=
  sendMessage_
    (Wire.Message service None VUndef None None None None Wire.RUndef).

Definition lookup (name : option string) : M nat :=
  sendMessage_
    (Wire.Message None name VUndef None None None None Wire.RUndef).

(** [create] and [lookup] after their [await], once promise [p] is
    fulfilled: [this.wrap_(result.objectId, result.methods)]. *)
Definition resume (p : nat) : M nat :=
  λ c, match promises c !! p with
       | Some (Some (Wire.RDescr methods objectId)) =>
           wrap_ (Some objectId) (Some methods) c
       | Some (Some (Wire.RValue (VBool _ | VNum _ | VStr _ | VArr _))) =>
           wrap_ None None c
       | Some (Some _) =>
           (Throw (TypeError "Cannot read property of undefined"), c)
       | _ => (Throw (TypeError "the promise is pending"), c)
       end.

Definition value_of (o : option string) : value :=
  match o with Some s => VStr s | None => VUndef end.

(** [object.on(event, handler)] and [object.off(event, handler)] as the
    page calls them on proxy [r]. A stub of the same name shadows the
    EventEmitter's method, a proxy whose prototype was replaced has no
    such method, and a stub named [listeners_] replaces the map; a
    function is not plain data and leaves the page as [VUndef]. *)
Definition on (r : nat) (event : EventEmitter.event_t)
    (handler : EventEmitter.handler) : M unit :=
  λ c, match proxies c !! r with
       | None => (Throw (TypeError "no such proxy"), c)
       | Some p =>
           if bool_decide ("on" ∈ stubs p) then
             (stub "on" (EventEmitter.objectId_ (emitter p))
                   [value_of event; VUndef] ;; ret ()) c
           else if negb (inherits p) then
             (Throw (TypeError "object.on is not a function"), c)
           else if bool_decide ("listeners_" ∈ stubs p) then
             (Throw (TypeError "this.listeners_.get is not a function"), c)
           else
             proxy_set r (Proxy (EventEmitter.on event handler (emitter p))
                                (stubs p)) c
       end.

Definition off (r : nat) (event : EventEmitter.event_t)
    (handler : EventEmitter.handler) : M unit :=
  λ c, match proxies c !! r with
       | None => (Throw (TypeError "no such proxy"), c)
       | Some p =>
           if bool_decide ("off" ∈ stubs p) then
             (stub "off" (EventEmitter.objectId_ (emitter p))
                   [value_of event; VUndef] ;; ret ()) c
           else if negb (inherits p) then
             (Throw (TypeError "object.off is not a function"), c)
           else if bool_decide ("listeners_" ∈ stubs p) then
             (Throw (TypeError "this.listeners_.get is not a function"), c)
           else
             proxy_set r (Proxy (EventEmitter.off event handler (emitter p))
                                (stubs p)) c
       end.

Definition log (l : list call) : M unit :=
  λ c, (Ok (),
        Make (lastId_ c) (callbacks_ c) (objects_ c) (proxies c)
             (promises c) (sent c) (calls c ++ l)).

(** [onMessage_(message)], which is [self.rpc.dispatchMessage] *)
Definition onMessage_ (message : Wire.message) : M unit :=
  match Wire.id message with
  | Some id =>
      λ c, match callbacks_ c !! id with
           | None =>
               (Throw (TypeError "this.callbacks_.get(...) is not a function"),
                c)
           | Some p => fulfil p (Wire.result message) c
           end
  | None =>
      λ c, match objects_ c !! Wire.objectId message with
           | None =>
               (Throw (TypeError "Cannot read property 'emit_' of undefined"),
                c)
           | Some r =>
               match proxies c !! r, Wire.args message with
               | None, _ => (Throw (TypeError "no such proxy"), c)
               | Some _, None =>
                   (Throw (TypeError "message.args is not iterable"), c)
               | Some p, Some args =>
                   if bool_decide ("emit_" ∈ stubs p) then
                     (stub "emit_" (EventEmitter.objectId_ (emitter p))
                           (value_of (Wire.method message) :: args) ;;
                      ret ()) c
                   else if negb (inherits p) then
                     (Throw
                        (TypeError
                           "this.objects_.get(...).emit_ is not a function"),
                      c)
                   else if bool_decide ("listeners_" ∈ stubs p) then
                     (Throw
                        (TypeError "this.listeners_.get is not a function"),
                      c)
                   else
                     log ((λ '(h, a), Call r h a) <$>
                            EventEmitter.emit_ (Wire.method message) args
                                               (emitter p)) c
               end
           end
  end.

(** The channel delivers the messages one by one, each in the state the
    one before left; the completions of the handler are collected. *)
Fixpoint dispatch_all (messages : list Wire.message) (c : t)
  : list (outcome unit) * t :=
  match messages with
  | [] => ([], c)
  | message :: messages =>
      let '(o, c) := onMessage_ message c in
      let '(os, c) := dispatch_all messages c in
      (o :: os, c)
  end.

(** Several requests issued one after the other, none answered yet: the
    promises they return, in order. *)
Fixpoint send_all (messages : list Wire.message) : M (list nat) :=
  match messages with
  | [] => ret []
  | message :: messages =>
      let* p := sendMessage_ message in
      let* ps := send_all messages in
      ret (p :: ps)
  end.

(** [object[method](...args)] as the page calls it on proxy [r], for a
    [method] that line 161 bound to a stub (line 162 rebinds [dispose];
    the stub that became the prototype is what [object.__proto__]
    yields). *)
Definition invoke (r : nat) (method : string) (args : list value) : M nat :=
  λ c, match proxies c !! r with
       | None => (Throw (TypeError "no such proxy"), c)
       | Some p =>
           if bool_decide (method ∈ stubs p ∧ method ≠ "dispose") then
             stub method (EventEmitter.objectId_ (emitter p)) args c
           else (Throw (TypeError "object[method] is not a stub"), c)
       end.

(** What the page and the channel can do with the bootstrap. *)
Inductive op :=
| Create (service : option string)
| Lookup (name : option string)
| Resume (p : nat)
| Invoke (r : nat) (method : string) (args : list value)
| Dispose (r : nat)
| On (r : nat) (event : EventEmitter.event_t) (handler : EventEmitter.handler)
| Off (r : nat) (event : EventEmitter.event_t) (handler : EventEmitter.handler)
| Dispatch (message : Wire.message).

Definition step (o : op) : M unit :=
  match o with
  | Create service => create service ;; ret ()
  | Lookup name => lookup name ;; ret ()
  | Resume p => resume p ;; ret ()
  | Invoke r method args => invoke r method args ;; ret ()
  | Dispose r =>
      λ c, match proxies c !! r with
           | None => (Throw (TypeError "no such proxy"), c)
           | Some p => dispose (EventEmitter.objectId_ (emitter p)) c
           end
  | On r event handler => on r event handler
  | Off r event handler => off r event handler
  | Dispatch message => onMessage_ message
  end.

Definition exec (ops : list op) (c : t) : t :=
  foldl (λ c o, (step o c).2) c ops.

End Client.

(** * Vocabulary of the statements *)

(** The characters of a string, and the separator of an ObjectId. *)
Definition chars : string → list ascii := String.list_ascii_of_string.
Definition hash : ascii := "#"%char.

(** A create or lookup request, as line 58 tests it, and the origin kind
    and the name that the ObjectId of such a request embeds. *)
Definition is_request (m : Wire.message) : bool :=
  truthy_name (Wire.create m) || truthy_name (Wire.lookup m).

Definition origin_kind (m : Wire.message) : string :=
  if truthy_name (Wire.create m) then "create" else "lookup".

Definition origin_name (m : Wire.message) : string :=
  if truthy_name (Wire.create m) then default "" (Wire.create m)
  else default "" (Wire.lookup m).


(** What a step of the Server leaves alone unless it mints or registers:
    the counter, the history of ids, the catalogs; the heap only grows. *)
Definition stable (s s' : Server.t) : Prop :=
  Server.lastObjectId_ s' = Server.lastObjectId_ s
  ∧ Server.minted s' = Server.minted s
  ∧ Server.factories_ s' = Server.factories_ s
  ∧ Server.services_ s' = Server.services_ s
  ∧ length (Server.heap s) ≤ length (Server.heap s').





(** [delete] at a key that may be absent from the message. *)
Definition delete_key (k : option string) (m : gmap string (option nat))
  : gmap string (option nat) :=
  match k with
  | Some k => delete k m
  | None => m
  end.

(** A message that the Client takes for a response: [typeof message.id ===
    'number']. *)
Definition is_response (m : Wire.message) : bool :=
  bool_decide (is_Some (Wire.id m)).

(** ** A host to run the model on

    [class Counter extends EventEmitter] with a field [count = 0], the
    methods [increment() { this.emit('changed', ++this.count); return
    this.count; }] (for a [count] that is a number) and
    [fail() { throw 'boom'; }], and a data property [version]; and a
    service [clock] with a method [now] that emits and returns the time it
    keeps privately. *)
Module Example.
Import Host.

(** The private state of the receiver, as a method finds it. *)
Definition this_state (heap : list fields) (this : nat) : value :=
  default VUndef (private <$> heap !! this).

Definition increment : hostfn := λ heap this _,
  match heap !! this ≫= (λ o, assoc (data o) "count") with
  | Some (VNum n) =>
      CallResult (this_state heap this) [(this, "count", VNum (n + 1))]
                 [("changed", [VNum (n + 1)])] (Ok (VNum (n + 1)))
  | _ =>
      CallResult (this_state heap this) [] []
                 (Throw (TypeError "count is not a number"))
  end.

Definition fail : hostfn := λ heap this _,
  CallResult (this_state heap this) [] [] (Throw (Raised (VStr "boom"))).

Definition now : hostfn := λ heap this _,
  let st := this_state heap this in
  CallResult st [] [("tick", [st])] (Ok st).

Definition native : hostfn := λ heap this _,
  CallResult (this_state heap this) [] [] (Ok VUndef).

Definition EventEmitter_prototype : props :=
  [("constructor", HFun native); ("emit", HFun native); ("on", HFun native)].

Definition Counter : class :=
  Class "Counter"
        [("constructor", HFun native); ("increment", HFun increment);
         ("version", HData (VNum 1)); ("fail", HFun fail)]
        [EventEmitter_prototype]
        (Ok ([("count", HData (VNum 0))], VUndef)).

Definition Broken : class :=
  Class "Broken" [("constructor", HFun native)] [EventEmitter_prototype]
        (Throw (Raised (VStr "no"))).

Definition clock : object :=
  Object [] [[("constructor", HFun native); ("now", HFun now)];
             EventEmitter_prototype]
         (VNum 42).

(** [new Server()], [exposeFactory(Counter)], [exposeFactory(Broken)],
    [exposeObject('clock', clock)]. *)
Definition server : Server.t :=
  let '(r, s) := Server.alloc clock Server.new in
  Server.exposeObject "clock" r
    (Server.exposeFactory Broken (Server.exposeFactory Counter s)).

Definition create (name : string) (i : N) : Wire.message :=
  Wire.Message (Some name) None VUndef None None None (Some i) Wire.RUndef.

Definition lookup (name : string) (i : N) : Wire.message :=
  Wire.Message None (Some name) VUndef None None None (Some i) Wire.RUndef.

Definition dispose (objectId : string) : Wire.message :=
  Wire.Message None None (VStr "dispose") (Some objectId) None None None
               Wire.RUndef.

Definition invoke (objectId method : string) (args : list value) (i : N)
  : Wire.message :=
  Wire.Message None None VUndef (Some objectId) (Some method) (Some args)
               (Some i) Wire.RUndef.

End Example.

(** The messages that a step from [s] to [s'] handed to the page. *)
Definition sent_by (s s' : Server.t) : list Wire.message :=
  drop (length (Server.outbox s)) (Server.outbox s').

(** Among them, the responses to request [message]: those that carry its
    id and that the Client takes for a response. *)
Definition responses_to (message : Wire.message) (s s' : Server.t)
  : list Wire.message :=
  filter (λ reply, Wire.id reply = Wire.id message ∧ is_response reply)
         (sent_by s s').

(** The example Server after [create('Counter')], and the Counter it
    registered as [create#Counter#1#]. *)
Definition server_with_counter : Server.t :=
  (Server.onMessage_ (Example.create "Counter" 1) Example.server).2.

Definition counter1 : Host.object :=
  Host.Object [("count", Host.HData (VNum 0));
               ("emit", Host.HForward "create#Counter#1#")]
              [Host.prototype Example.Counter; Example.EventEmitter_prototype]
              VUndef.

(** ** A page to run the model on *)

(** The Client after [wrap_('create#Counter#1#', ['increment', 'fail'])];
    the proxy is reference 0. *)
Definition client_with_proxy : Client.t :=
  (Client.wrap_ (Some "create#Counter#1#") (Some ["increment"; "fail"])
                Client.new).2.

(** The event [{objectId: 'create#Counter#1#', method: 'changed',
    args: [1]}]. *)
Definition changed : Wire.message :=
  Wire.event "create#Counter#1#" (Some "changed") [VNum 1].

(** A response [{id, result}]. *)
Definition response (i : N) (r : Wire.result_t) : Wire.message :=
  Wire.Message None None VUndef None None None (Some i) r.

(** The calls of listeners made by a step from [c] to [c']. *)
Definition called_by (c c' : Client.t) : list Client.call :=
  drop (length (Client.calls c)) (Client.calls c').

(** A Client as the page can find it: what [new Client()] has become
    after some operations. *)
Definition reachable (c : Client.t) : Prop :=
  ∃ ops, c = Client.exec ops Client.new.

(** Every entry of the Client's registry leads to a proxy that was wrapped
    for that very ObjectId. *)
Definition registry_sound (c : Client.t) : Prop :=
  ∀ k r, Client.objects_ c !! k = Some r →
         ∃ p, Client.proxies c !! r = Some p
              ∧ EventEmitter.objectId_ (Client.emitter p) = k.

(** What an operation of the Client leaves alone unless it sends. *)
Definition quiet (c c' : Client.t) : Prop :=
  Client.lastId_ c' = Client.lastId_ c
  ∧ Client.callbacks_ c' = Client.callbacks_ c
  ∧ Client.sent c' = Client.sent c.

(** The ids handed out so far are 1, 2, ..., [lastId_], in the order of
    sending, and each of them has its entry in [callbacks_]. *)
Definition ids_inv (c : Client.t) : Prop :=
  Wire.id <$> Client.sent c
  = (λ i, Some (N.of_nat i)) <$> seq 1 (length (Client.sent c))
  ∧ Client.lastId_ c = N.of_nat (length (Client.sent c))
  ∧ ∀ i, (1 ≤ i ≤ Client.lastId_ c)%N ↔ is_Some (Client.callbacks_ c !! i).

(** The ids that [n] requests sent from Client [c] get, in order. *)
Definition next_ids (c : Client.t) (n : nat) : list (option N) :=
  (λ k, Some (Client.lastId_ c + N.of_nat k)%N) <$> seq 1 n.

(** ** Vocabulary of the further properties *)

(** An invocation, as [onMessage_] tells it from the other messages. *)
Definition is_invoke (m : Wire.message) : bool :=
  negb (is_request m) && negb (truthy (Wire.dispose m)).

(** Every registered instance is in the heap and its [emit] is a closure
    of line 70. *)
Definition registry_forwards (s : Server.t) : Prop :=
  ∀ k r, Server.objects_ s !! k = Some (Some r) →
         ∃ o objectId, Server.heap s !! r = Some o
                       ∧ Host.get o "emit" = Host.HForward objectId.

(** Every service is an object of the heap. *)
Definition services_valid (s : Server.t) : Prop :=
  ∀ name r, Server.services_ s !! name = Some r →
            is_Some (Server.heap s !! r).

(** Every registered ObjectId was minted. *)
Definition registry_minted (s : Server.t) : Prop :=
  ∀ k, is_Some (Server.objects_ s !! k) → k ∈ Server.minted s.





(** A request that gets to line 64 or 67: every lookup request, and every
    create request whose factory is known and whose constructor returns.
    The catalogs do not change while messages are handled. *)
Definition mints (s : Server.t) (m : Wire.message) : bool :=
  if truthy_name (Wire.create m) then
    match Server.factories_ s !! default "" (Wire.create m) with
    | Some c => is_Ok (Host.construct c)
    | None => false
    end
  else truthy_name (Wire.lookup m).

(** The ObjectIds that the replies to requests among [l] carry, in
    order. *)
Definition reply_ids (l : list Wire.message) : list string :=
  omap (λ m, match Wire.result m with
             | Wire.RDescr _ objectId => Some objectId
             | _ => None
             end) l.




(** [Object.create(null)] with a method of its own: an object without
    prototype. *)
Definition bare : Host.object :=
  Host.Object [("now", Host.HFun Example.now)] [] VUndef.

(** A host method that never assigns the property [emit], a property
    table whose functions are such, and an object whose own properties and
    prototypes are such tables. *)
Definition keeps_emit (f : Host.hostfn) : Prop :=
  ∀ heap this args,
    Forall (λ w, w.1.2 ≠ "emit") (Host.writes (f heap this args)).

Definition table_keeps_emit (p : Host.props) : Prop :=
  Forall (λ e, ∀ f, e.2 = Host.HFun f → keeps_emit f) p.

Definition object_keeps_emit (o : Host.object) : Prop :=
  Forall table_keeps_emit (Host.own o :: Host.protos o).

(** No method that an invocation can reach assigns [emit]: those of the
    objects of the heap and those of the instances that the factories
    make. *)
Definition methods_keep_emit (s : Server.t) : Prop :=
  Forall object_keeps_emit (Server.heap s)
  ∧ map_Forall
      (λ _ c, Forall table_keeps_emit (Host.prototype c :: Host.parents c)
              ∧ ∀ own st, Host.construct c = Ok (own, st) →
                          table_keeps_emit own)
      (Server.factories_ s).

(** [class Muted { mute() { this.emit = null; } }] *)
Definition mute : Host.hostfn := λ heap this _,
  Host.CallResult (Example.this_state heap this) [(this, "emit", VNull)] []
                  (Ok VUndef).

Definition Muted : Host.class :=
  Host.Class "Muted"
    [("constructor", Host.HFun Example.native); ("mute", Host.HFun mute)]
    [] (Ok ([], VUndef)).

(** * Properties *)

(** ** Strings: the shape of an ObjectId *)

Section ObjectId_shape.

Lemma chars_app s1 s2 : chars (s1 +:+ s2) = chars s1 ++ chars s2.
Proof. induction s1 as [|a s1 IH]; simpl; [done|]. by rewrite <-IH. Qed.

Lemma chars_inj s1 s2 : chars s1 = chars s2 → s1 = s2.
Proof.
  intros H. rewrite <-(String.string_of_list_ascii_of_string s1),
    <-(String.string_of_list_ascii_of_string s2). unfold chars in H.
  by rewrite H.
Qed.

Lemma pretty_N_char_not_hash d : pretty_N_char d ≠ hash.
Proof. unfold pretty_N_char, hash. by repeat case_match. Qed.

Lemma pretty_N_go_no_hash n s :
  hash ∉ chars s → hash ∉ chars (pretty_N_go n s).
Proof.
  revert s. induction (N.lt_wf_0 n) as [n _ IH]. intros s Hs.
  destruct (decide (n = 0)%N) as [->|Hn].
  - by rewrite pretty_N_go_0.
  - rewrite pretty_N_go_step by lia. apply IH.
    + apply N.div_lt; lia.
    + simpl. intros [E|?]%elem_of_cons; [|done].
      by apply (pretty_N_char_not_hash (n `mod` 10)%N).
Qed.

Lemma pretty_no_hash (n : N) : hash ∉ chars (pretty n).
Proof.
  unfold pretty, pretty_N. case_decide.
  - simpl. by intros [?|?%elem_of_nil]%elem_of_cons.
  - apply pretty_N_go_no_hash. simpl. apply not_elem_of_nil.
Qed.

(** The segment after the last separator is determined by the whole. *)
Lemma last_segment {A} (x : A) (d1 d2 a b : list A) :
  x ∉ d1 → x ∉ d2 → a ++ x :: d1 = b ++ x :: d2 → d1 = d2.
Proof.
  revert d2. induction d1 as [|y1 d1 IH] using rev_ind;
    intros d2 H1 H2 E; destruct d2 as [|y2 d2 _] using rev_ind.
  - done.
  - exfalso. apply H2. rewrite elem_of_app, list_elem_of_singleton.
    right. change (b ++ x :: d2 ++ [y2]) with (b ++ (x :: d2) ++ [y2]) in E.
    rewrite (assoc_L (++)) in E.
    change (a ++ [x]) with (a ++ [x]) in E.
    by apply app_inj_tail in E as [_ ->].
  - exfalso. apply H1. rewrite elem_of_app, list_elem_of_singleton.
    right. change (a ++ x :: d1 ++ [y1]) with (a ++ (x :: d1) ++ [y1]) in E.
    rewrite (assoc_L (++)) in E.
    by apply app_inj_tail in E as [_ ->].
  - change (a ++ x :: d1 ++ [y1]) with (a ++ (x :: d1) ++ [y1]) in E.
    change (b ++ x :: d2 ++ [y2]) with (b ++ (x :: d2) ++ [y2]) in E.
    rewrite !(assoc_L (++)) in E. apply app_inj_tail in E as [E ->].
    f_equal. apply IH; [set_solver..|done].
Qed.

Lemma ObjectId_chars kind name n :
  chars (Server.ObjectId kind name n)
  = ((chars kind ++ hash :: chars name) ++ hash :: chars (pretty n))
      ++ [hash].
Proof.
  unfold Server.ObjectId. rewrite !chars_app. simpl.
  by rewrite <-!(assoc_L (++)).
Qed.

(** Two ObjectIds that are equal carry the same sequence number, whatever
    their kinds and names (a name may itself contain the separator). *)
Lemma ObjectId_seq_inj k1 n1 i1 k2 n2 i2 :
  Server.ObjectId k1 n1 i1 = Server.ObjectId k2 n2 i2 → i1 = i2.
Proof.
  intros E. apply (f_equal chars) in E. rewrite !ObjectId_chars in E.
  apply app_inj_tail in E as [E _].
  apply last_segment in E; [|apply pretty_no_hash..].
  by apply chars_inj, (inj pretty) in E.
Qed.

End ObjectId_shape.

(** ** The Server: what each operation leaves alone *)

Section Server_frame.
Import Server Host.
Local Open Scope server_scope.

Lemma stable_refl s : stable s s.
Proof. by repeat split. Qed.

Lemma stable_trans s1 s2 s3 : stable s1 s2 → stable s2 s3 → stable s1 s3.
Proof.
  intros (?&?&?&?&?) (?&?&?&?&?). repeat split; try congruence. lia.
Qed.

Lemma bind_stable {A B} (m : M A) (k : A → M B) :
  (∀ s, stable s (m s).2) → (∀ a s, stable s (k a s).2) →
  ∀ s, stable s (bind m k s).2.
Proof.
  intros Hm Hk s. unfold bind. specialize (Hm s).
  destruct (m s) as [[a|e] s']; simpl in *; [|done].
  eapply stable_trans; [done|apply Hk].
Qed.

Ltac stable_prim :=
  intros; repeat split; simpl;
  rewrite ?length_insert, ?length_app; simpl; try done; try lia.

Lemma sendMessage__stable message s : stable s (sendMessage_ message s).2.
Proof. stable_prim. Qed.

Lemma objects_delete_stable k s : stable s (objects_delete k s).2.
Proof. destruct k; stable_prim. Qed.

Lemma heap_set_stable r o s : stable s (heap_set r o s).2.
Proof. stable_prim. Qed.

Lemma new__stable c s : stable s (new_ c s).2.
Proof.
  unfold new_. destruct c as [c|]; [|apply stable_refl].
  destruct (construct c) as [[??]|]; [|apply stable_refl]. stable_prim.
Qed.

Lemma set_emit_stable object objectId s :
  stable s (set_emit object objectId s).2.
Proof.
  unfold set_emit. case_match; [apply heap_set_stable|apply stable_refl].
Qed.

Lemma emit_stable object event args s : stable s (emit object event args s).2.
Proof.
  unfold emit, forward, sendMessage_. repeat case_match; stable_prim.
Qed.

Lemma send_all_stable messages s : stable s (send_all messages s).2.
Proof. stable_prim. Qed.

Lemma length_write heap w : length (write heap w) = length heap.
Proof. unfold write. case_match; by rewrite ?length_insert. Qed.

Lemma length_write_all ws : ∀ heap,
  length (write_all ws heap) = length heap.
Proof.
  unfold write_all. induction ws as [|w ws IH]; intros heap; simpl; [done|].
  by rewrite IH, length_write.
Qed.

Lemma heap_put_stable heap' s :
  length (heap s) ≤ length heap' → stable s (heap_put heap' s).2.
Proof. stable_prim. Qed.

Lemma call_stable object method args s :
  stable s (call object method args s).2.
Proof.
  unfold call. destruct (object ≫= _) as [o|]; [|apply stable_refl].
  destruct (get o (prop_key method)) as [|v|f|oid]; destruct args as [a|];
    simpl; try apply stable_refl.
  - unfold bind, send_all, heap_put, ret, throw. simpl.
    case_match; repeat split; simpl;
      rewrite ?length_write_all, ?length_insert; done.
  - stable_prim.
Qed.

End Server_frame.

(** ** The Server: what [onMessage_] computes, case by case *)

Section Server_cases.
Import Server Host.
Local Open Scope server_scope.

(** [describe_] reads the prototype only. *)
Lemma describe__set o k v : describe_ (set o k v) = describe_ o.
Proof. done. Qed.

Lemma describe__set_state o st : describe_ (set_state o st) = describe_ o.
Proof. done. Qed.

(** A create request for a known factory whose constructor returns. *)
Lemma onMessage__create message s c own st :
  truthy_name (Wire.create message) = true →
  factories_ s !! default "" (Wire.create message) = Some c →
  construct c = Ok (own, st) →
  let o := Object own (prototype c :: parents c) st in
  let objectId := ObjectId "create" (default "" (Wire.create message))
                           (N.succ (lastObjectId_ s)) in
  ∃ methods,
    describe_ o = Ok methods
    ∧ onMessage_ message s
      = (Ok (),
         Make (N.succ (lastObjectId_ s)) (factories_ s) (services_ s)
              (<[objectId := Some (length (heap s))]> (objects_ s))
              (heap s ++ [set o "emit" (HForward objectId)])
              (outbox s ++
                 [Wire.describe_reply (Wire.id message) methods objectId])
              (minted s ++ [objectId])).
Proof.
  intros Hc Hf Hn o objectId. eexists. split; [done|].
  unfold onMessage_, bind, ret, new_, mint, objects_set, set_emit, heap_set,
    sendMessage_.
  rewrite Hc. simpl. rewrite Hf, Hn. simpl.
  rewrite list_lookup_middle by done. simpl.
  rewrite list_lookup_insert_eq by (rewrite length_app; simpl; lia).
  simpl. do 2 f_equal.
  rewrite insert_app_r_alt, Nat.sub_diag by done. done.
Qed.

(** A create request for an unknown factory, or whose constructor
    throws: the handler throws before it touches the Server. *)
Lemma onMessage__create_fails message s :
  truthy_name (Wire.create message) = true →
  match factories_ s !! default "" (Wire.create message) with
  | None => True
  | Some c => is_Ok (construct c) = false
  end →
  ∃ e, onMessage_ message s = (Throw e, s).
Proof.
  intros Hc Hf.
  unfold onMessage_, bind, ret, new_. rewrite Hc. simpl.
  destruct (factories_ s !! _) as [c|]; [|by eexists].
  destruct (construct c) as [[??]|e]; [done|by eexists].
Qed.

(** A lookup request for a registered service: the id is minted and
    registered and [emit] is assigned; [describe_] then gives the reply, or
    throws and no reply is sent. *)
Lemma onMessage__lookup message s r o :
  truthy_name (Wire.create message) = false →
  truthy_name (Wire.lookup message) = true →
  services_ s !! default "" (Wire.lookup message) = Some r →
  heap s !! r = Some o →
  let objectId := ObjectId "lookup" (default "" (Wire.lookup message))
                           (N.succ (lastObjectId_ s)) in
  let registered outbox' :=
    Make (N.succ (lastObjectId_ s)) (factories_ s) (services_ s)
         (<[objectId := Some r]> (objects_ s))
         (<[r := set o "emit" (HForward objectId)]> (heap s))
         outbox' (minted s ++ [objectId]) in
  onMessage_ message s
  = match describe_ o with
    | Ok methods =>
        (Ok (),
         registered
           (outbox s ++
              [Wire.describe_reply (Wire.id message) methods objectId]))
    | Throw e => (Throw e, registered (outbox s))
    end.
Proof.
  intros Hc Hl Hs Hr objectId registered.
  unfold onMessage_, bind, ret, mint, objects_set, set_emit, heap_set,
    sendMessage_.
  rewrite Hc, Hl. simpl. rewrite Hs. simpl. rewrite Hr. simpl.
  rewrite list_lookup_insert_eq by (by eapply lookup_lt_Some). simpl.
  rewrite describe__set. by destruct (describe_ o).
Qed.

(** What a lookup request for a registered service leaves in the Server,
    whether [describe_] throws or not. *)
Lemma onMessage__lookup_registered message s r o :
  truthy_name (Wire.create message) = false →
  truthy_name (Wire.lookup message) = true →
  services_ s !! default "" (Wire.lookup message) = Some r →
  heap s !! r = Some o →
  let objectId := ObjectId "lookup" (default "" (Wire.lookup message))
                           (N.succ (lastObjectId_ s)) in
  let s' := (onMessage_ message s).2 in
  lastObjectId_ s' = N.succ (lastObjectId_ s)
  ∧ factories_ s' = factories_ s
  ∧ services_ s' = services_ s
  ∧ objects_ s' = <[objectId := Some r]> (objects_ s)
  ∧ heap s' = <[r := set o "emit" (HForward objectId)]> (heap s)
  ∧ minted s' = minted s ++ [objectId].
Proof.
  intros Hc Hl Hs Hr objectId. simpl.
  rewrite (onMessage__lookup message s r o) by done.
  by destruct (describe_ o).
Qed.

(** A lookup request for a name that is not a service: the id is minted
    and registered for [undefined], and line 70 throws. *)
Lemma onMessage__lookup_unknown message s :
  truthy_name (Wire.create message) = false →
  truthy_name (Wire.lookup message) = true →
  services_ s !! default "" (Wire.lookup message) ≫= (λ r, heap s !! r)
    = None →
  let objectId := ObjectId "lookup" (default "" (Wire.lookup message))
                           (N.succ (lastObjectId_ s)) in
  onMessage_ message s
  = (Throw (TypeError "Cannot set property 'emit' of undefined"),
     Make (N.succ (lastObjectId_ s)) (factories_ s) (services_ s)
          (<[objectId := services_ s !! default "" (Wire.lookup message)]>
             (objects_ s))
          (heap s) (outbox s) (minted s ++ [objectId])).
Proof.
  intros Hc Hl Hs objectId.
  unfold onMessage_, bind, ret, mint, objects_set, set_emit.
  rewrite Hc, Hl. simpl. rewrite Hs. done.
Qed.

(** A dispose message. *)
Lemma onMessage__dispose message s :
  is_request message = false →
  truthy (Wire.dispose message) = true →
  onMessage_ message s = objects_delete (Wire.objectId message) s.
Proof.
  unfold is_request, onMessage_. by intros -> ->.
Qed.

(** Any other message is an invocation. *)
Lemma onMessage__invoke message s :
  is_request message = false →
  truthy (Wire.dispose message) = false →
  onMessage_ message s
  = (let* result := call (objects_get (Wire.objectId message) s)
                         (Wire.method message) (Wire.args message) in
     sendMessage_ (Wire.invoke_reply (Wire.id message)
                                     (Wire.objectId message) result)) s.
Proof.
  unfold is_request, onMessage_. by intros -> ->.
Qed.

End Server_cases.

(** ** The Server: minting *)

Section Server_mint.
Import Server Host.
Local Open Scope server_scope.

Lemma onMessage__not_request_stable message s :
  is_request message = false → stable s (onMessage_ message s).2.
Proof.
  intros Hr. destruct (truthy (Wire.dispose message)) eqn:Hd.
  - rewrite onMessage__dispose by done. apply objects_delete_stable.
  - rewrite onMessage__invoke by done.
    apply bind_stable; [apply call_stable|].
    intros; apply sendMessage__stable.
Qed.

(** One message mints at most one id, and only a create or lookup
    request does; the id embeds the request's kind and name and the
    successor of the counter, which becomes the counter. *)
Lemma onMessage__minted message s :
  let s' := (onMessage_ message s).2 in
  (lastObjectId_ s' = lastObjectId_ s ∧ minted s' = minted s)
  ∨ (is_request message = true
     ∧ lastObjectId_ s' = N.succ (lastObjectId_ s)
     ∧ minted s' = minted s ++
         [ObjectId (origin_kind message) (origin_name message)
                   (N.succ (lastObjectId_ s))]).
Proof.
  destruct (is_request message) eqn:Hr; simpl.
  - unfold is_request in Hr. unfold origin_kind, origin_name.
    unfold onMessage_, bind, ret, new_, mint, objects_set, set_emit,
      heap_set, sendMessage_.
    rewrite Hr. simpl.
    destruct (truthy_name (Wire.create message)); simpl;
      repeat case_match; simplify_eq/=; auto.
  - left. by destruct (onMessage__not_request_stable message s Hr)
      as (?&?&_).
Qed.

(** The catalogs are never written by [onMessage_] and no object leaves
    the heap. *)
Lemma onMessage__catalogs message s :
  let s' := (onMessage_ message s).2 in
  factories_ s' = factories_ s ∧ services_ s' = services_ s
  ∧ length (heap s) ≤ length (heap s').
Proof.
  destruct (is_request message) eqn:Hr; simpl.
  - unfold is_request in Hr.
    unfold onMessage_, bind, ret, new_, mint, objects_set, set_emit,
      heap_set, sendMessage_.
    rewrite Hr. simpl.
    destruct (truthy_name (Wire.create message)); simpl;
      repeat case_match; simplify_eq/=;
      rewrite ?length_insert, ?length_app; auto with lia.
  - by destruct (onMessage__not_request_stable message s Hr)
      as (?&?&?&?&?).
Qed.

End Server_mint.

Section Server_ids.
Import Server.

Lemma run_cons message messages s :
  run (message :: messages) s = run messages (onMessage_ message s).2.
Proof. done. Qed.




Lemma run_app before after s :
  run (before ++ after) s = run after (run before s).
Proof. unfold run. by rewrite foldl_app. Qed.


Lemma reply_ids_app l l' : reply_ids (l ++ l') = reply_ids l ++ reply_ids l'.
Proof. unfold reply_ids. by rewrite omap_app. Qed.

Lemma reply_ids_events events :
  Forall (λ m, Wire.id m = None ∧ Wire.result m = Wire.RUndef) events →
  reply_ids events = [].
Proof.
  induction 1 as [|m l [_ Hm] _ IH]; [done|].
  unfold reply_ids in *. simpl. by rewrite Hm.
Qed.

Lemma sent_by_app s s' sent :
  outbox s' = outbox s ++ sent → sent_by s s' = sent.
Proof. unfold sent_by. intros ->. by rewrite drop_app_length. Qed.

End Server_ids.

Section Server_call_sends.
Import Server Host.
Local Open Scope server_scope.

(** A call leaves the registry alone and sends events only. *)
Lemma call_sends object method args s :
  let s' := (call object method args s).2 in
  objects_ s' = objects_ s
  ∧ ∃ events,
      outbox s' = outbox s ++ events
      ∧ Forall (λ m, Wire.id m = None ∧ Wire.result m = Wire.RUndef) events.
Proof.
  unfold call. destruct (object ≫= _) as [o|]; simpl.
  2: { split; [done|]. exists []. by rewrite app_nil_r. }
  destruct (get o (prop_key method)) as [|v|f|oid]; destruct args as [a|];
    simpl; try (split; [done|]; exists []; by rewrite app_nil_r).
  - unfold bind, send_all, heap_put, ret, throw. simpl.
    assert (Forall (λ m, Wire.id m = None ∧ Wire.result m = Wire.RUndef)
              (emissions o (emitted (f (view (heap s)) (default 0 object) a))))
      as Hev.
    { unfold emissions, forwarded. case_match; try by constructor.
      apply Forall_fmap, Forall_forall. by intros [??] _. }
    case_match; simpl; (split; [done|]); eexists; by split.
  - split; [done|]. eexists. split; [done|]. by repeat constructor.
Qed.

(** What one message does to the counter, the registry and the outbox.
    A request that gets to line 64 or 67 takes the next number, gives the
    id made of it to [objects_.set], and replies with that id or not at
    all; any other message leaves the counter alone, registers nothing and
    sends no reply to a request. *)
Lemma onMessage__registers message s :
  let s' := (onMessage_ message s).2 in
  let objectId := ObjectId (origin_kind message) (origin_name message)
                           (N.succ (lastObjectId_ s)) in
  factories_ s' = factories_ s
  ∧ outbox s' = outbox s ++ sent_by s s'
  ∧ if mints s message then
      lastObjectId_ s' = N.succ (lastObjectId_ s)
      ∧ minted s' = minted s ++ [objectId]
      ∧ (∃ object, objects_ s' = <[objectId := object]> (objects_ s))
      ∧ (sent_by s s' = []
         ∨ ∃ methods,
             sent_by s s'
             = [Wire.describe_reply (Wire.id message) methods objectId])
    else
      lastObjectId_ s' = lastObjectId_ s
      ∧ minted s' = minted s
      ∧ (∀ k, is_Some (objects_ s' !! k) → is_Some (objects_ s !! k))
      ∧ reply_ids (sent_by s s') = [].
Proof.
  unfold mints, origin_kind, origin_name.
  destruct (truthy_name (Wire.create message)) eqn:Hc.
  - destruct (factories_ s !! default "" (Wire.create message)) as [c|] eqn:Hf.
    2: { destruct (onMessage__create_fails message s Hc) as [e ->];
           [by rewrite Hf|]. simpl.
         unfold sent_by. rewrite drop_all, app_nil_r. by repeat split. }
    destruct (construct c) as [[own st]|e] eqn:Hn; simpl.
    2: { destruct (onMessage__create_fails message s Hc) as [e' ->];
           [by rewrite Hf, Hn|]. simpl.
         unfold sent_by. rewrite drop_all, app_nil_r. by repeat split. }
    destruct (onMessage__create message s c own st Hc Hf Hn)
      as (methods & _ & ->). simpl.
    erewrite sent_by_app by done. repeat split; eauto.
  - destruct (truthy_name (Wire.lookup message)) eqn:Hl.
    + destruct (services_ s !! default "" (Wire.lookup message)
                  ≫= (λ r, heap s !! r)) as [o|] eqn:Ho.
      * apply bind_Some in Ho as (r & Hsr & Ho).
        rewrite (onMessage__lookup message s r o) by done.
        destruct (describe_ o) as [methods|e]; simpl.
        -- erewrite sent_by_app by done. repeat split; eauto.
        -- unfold sent_by. simpl. rewrite drop_all, app_nil_r.
           repeat split; eauto.
      * rewrite onMessage__lookup_unknown by done. simpl.
        unfold sent_by. simpl. rewrite drop_all, app_nil_r.
        repeat split; eauto.
    + assert (is_request message = false) as Hr
        by (unfold is_request; by rewrite Hc, Hl).
      destruct (truthy (Wire.dispose message)) eqn:Hd.
      * rewrite onMessage__dispose by done. unfold objects_delete.
        destruct (Wire.objectId message) as [k|]; simpl;
          unfold sent_by; simpl; rewrite drop_all, app_nil_r;
          repeat split; try done.
        intros k' [v Hv]. apply lookup_delete_Some in Hv as [_ Hv]. by eexists.
      * rewrite onMessage__invoke by done. unfold bind, sendMessage_.
        destruct (call_sends (objects_get (Wire.objectId message) s)
                    (Wire.method message) (Wire.args message) s)
          as (Ho & events & Hout & Hev).
        pose proof (call_stable (objects_get (Wire.objectId message) s)
                      (Wire.method message) (Wire.args message) s)
          as (Hn & Hm & Hf & _).
        destruct (call _ _ _ s) as [[v|e] s1]; simpl in *.
        -- erewrite sent_by_app
             by (simpl; rewrite Hout, <-(assoc_L (++)); reflexivity).
           rewrite Hout, <-(assoc_L (++)), Ho. repeat split; try done.
           rewrite reply_ids_app, reply_ids_events by done. done.
        -- erewrite sent_by_app by done. rewrite Ho. repeat split; try done.
           by apply reply_ids_events.
Qed.

End Server_call_sends.

Section Server_run_ids.
Import Server.


End Server_run_ids.



Example run_example_replies :
  reply_ids
    (Server.outbox
       (Server.run [Example.create "Counter" 1;
                    Example.dispose "create#Counter#1#";
                    Example.create "Broken" 2; Example.lookup "nobody" 3;
                    Example.create "Counter" 4] Example.server))
  = ["create#Counter#1#"; "create#Counter#3#"].
Proof. vm_compute. reflexivity. Qed.

Example run_example_minted :
  Server.minted
    (Server.run [Example.create "Counter" 1;
                 Example.dispose "create#Counter#1#";
                 Example.create "Broken" 2; Example.lookup "nobody" 3;
                 Example.create "Counter" 4] Example.server)
  = ["create#Counter#1#"; "lookup#nobody#2#"; "create#Counter#3#"].
Proof. vm_compute. reflexivity. Qed.

(** ** The Server: method discovery *)

Section Server_describe.
Import Server Host.










#[local] Instance index_le_trans : Transitive index_le.
Proof. unfold index_le. intros ???. lia. Qed.

#[local] Instance index_le_total : Total index_le.
Proof. unfold index_le. intros ??. lia. Qed.





End Server_describe.





Example describe_Counter :
  Server.outbox
    (Server.onMessage_ (Example.create "Counter" 1) Example.server).2
  = [Wire.describe_reply (Some 1%N) ["increment"; "fail"] "create#Counter#1#"].
Proof. vm_compute. reflexivity. Qed.

(** ** The Server: disposal *)

(** C7. A dispose message removes the registry entry of its objectId and
    changes nothing else: the handler returns, the outbox is as it was (no
    reply). Handling the same message again returns too and changes
    nothing more, and when the objectId was not registered the first
    handling already leaves the Server as it was. *)
Theorem C7_dispose_removes_silently_and_idempotently
    (message : Wire.message) (s : Server.t) :
  is_request message = false →
  truthy (Wire.dispose message) = true →
  let s1 :=
    Server.Make (Server.lastObjectId_ s) (Server.factories_ s)
                (Server.services_ s)
                (delete_key (Wire.objectId message) (Server.objects_ s))
                (Server.heap s) (Server.outbox s) (Server.minted s) in
  Server.onMessage_ message s = (Ok (), s1)
  ∧ Server.onMessage_ message s1 = (Ok (), s1)
  ∧ ((∀ k, Wire.objectId message = Some k → Server.objects_ s !! k = None) →
     s1 = s).
Proof.
  intros Hr Hd s1. rewrite !onMessage__dispose by done.
  unfold Server.objects_delete, s1, delete_key.
  destruct (Wire.objectId message) as [k|]; simpl.
  - split; [done|]. split.
    + do 2 f_equal. apply delete_delete_eq.
    + intros Hk. destruct s; simpl in *. f_equal.
      apply delete_id. by apply Hk.
  - by destruct s.
Qed.

Lemma C7_witness :
  let s := (Server.onMessage_ (Example.create "Counter" 1) Example.server).2 in
  let message := Example.dispose "create#Counter#1#" in
  is_request message = false
  ∧ truthy (Wire.dispose message) = true
  ∧ let s1 :=
      Server.Make (Server.lastObjectId_ s) (Server.factories_ s)
                  (Server.services_ s)
                  (delete_key (Wire.objectId message) (Server.objects_ s))
                  (Server.heap s) (Server.outbox s) (Server.minted s) in
    Server.onMessage_ message s = (Ok (), s1)
    ∧ Server.onMessage_ message s1 = (Ok (), s1)
    ∧ ((∀ k, Wire.objectId message = Some k → Server.objects_ s !! k = None) →
       s1 = s).
Proof.
  intros s message. split; [reflexivity|]. split; [reflexivity|].
  apply (C7_dispose_removes_silently_and_idempotently message s);
    reflexivity.
Defined.

Example dispose_unregisters :
  let s := (Server.onMessage_ (Example.create "Counter" 1) Example.server).2 in
  Server.objects_ s !! "create#Counter#1#" = Some (Some 1)
  ∧ Server.objects_
      (Server.onMessage_ (Example.dispose "create#Counter#1#") s).2
      !! "create#Counter#1#" = None.
Proof. split; vm_compute; reflexivity. Qed.

(** ** The Server: invocations that fail *)

Section Server_invoke.
Import Server Host.
Local Open Scope server_scope.

Lemma objects_get_unregistered objectId s :
  (∀ k, objectId = Some k → objects_ s !! k = None) →
  objects_get objectId s = None.
Proof.
  intros H. unfold objects_get. destruct objectId as [k|]; [|done].
  simpl. by rewrite (H k).
Qed.





End Server_invoke.

(** C5, as the code has it. An invocation whose objectId is not registered
    makes the handler throw a TypeError (its promise is rejected) at the
    property read of line 84; the Server is left as it was, so no message,
    and in particular no response to the caller, is sent. *)
Theorem C5_invoke_unregistered_throws_and_sends_nothing
    (message : Wire.message) (s : Server.t) :
  is_request message = false →
  truthy (Wire.dispose message) = false →
  (∀ k, Wire.objectId message = Some k → Server.objects_ s !! k = None) →
  Server.onMessage_ message s
  = (Throw (TypeError "Cannot read property of undefined"), s).
Proof.
  intros Hr Hd Hk. rewrite onMessage__invoke by done.
  by rewrite objects_get_unregistered.
Qed.

Lemma C5_witness :
  let message := Example.invoke "create#Counter#1#" "increment" [] 1 in
  is_request message = false
  ∧ truthy (Wire.dispose message) = false
  ∧ (∀ k, Wire.objectId message = Some k →
          Server.objects_ Example.server !! k = None)
  ∧ Server.onMessage_ message Example.server
    = (Throw (TypeError "Cannot read property of undefined"), Example.server).
Proof.
  intros message.
  assert (∀ k, Wire.objectId message = Some k →
               Server.objects_ Example.server !! k = None) as Hk
    by (intros k _; reflexivity).
  split; [reflexivity|]. split; [reflexivity|]. split; [exact Hk|].
  exact (C5_invoke_unregistered_throws_and_sends_nothing
           message Example.server eq_refl eq_refl Hk).
Defined.

(** C5 as stated fails on the scenario of the specification: a Counter is
    created and disposed, then [increment] is invoked on its ObjectId. The
    handler throws a TypeError and no response to request 3 reaches the
    page. *)
Lemma C5_counterexample :
  let s := Server.run [Example.create "Counter" 1;
                       Example.dispose "create#Counter#1#"] Example.server in
  let message := Example.invoke "create#Counter#1#" "increment" [] 3 in
  Server.objects_ s !! "create#Counter#1#" = None
  ∧ (Server.onMessage_ message s).1
    = Throw (TypeError "Cannot read property of undefined")
  ∧ responses_to message s (Server.onMessage_ message s).2 = [].
Proof. repeat split; vm_compute; reflexivity. Qed.




(** The same invocation with a method that returns is answered. *)
Example increment_is_answered :
  let s := server_with_counter in
  let message := Example.invoke "create#Counter#1#" "increment" [] 2 in
  sent_by s (Server.onMessage_ message s).2
  = [Wire.event "create#Counter#1#" (Some "changed") [VNum 1];
     Wire.invoke_reply (Some 2%N) (Some "create#Counter#1#") (VNum 1)].
Proof. vm_compute. reflexivity. Qed.

(** ** The Client: events *)

(** C10. An event message, one without a numeric id, whose objectId has no
    proxy in the Client's registry makes [dispatchMessage] throw a
    TypeError and changes nothing; this is so in particular once the proxy
    of that objectId has been disposed. *)
Theorem C10_event_without_proxy_throws
    (message : Wire.message) (c : Client.t) :
  Wire.id message = None →
  (Client.objects_ c !! Wire.objectId message = None →
   Client.onMessage_ message c
   = (Throw (TypeError "Cannot read property 'emit_' of undefined"), c))
  ∧ (let c' := (Client.dispose (Wire.objectId message) c).2 in
     Client.onMessage_ message c'
     = (Throw (TypeError "Cannot read property 'emit_' of undefined"), c')).
Proof.
  intros Hid. unfold Client.onMessage_. rewrite Hid. split.
  - by intros ->.
  - simpl. by rewrite lookup_delete_eq.
Qed.

Lemma C10_witness :
  Wire.id changed = None
  ∧ (Client.objects_ Client.new !! Wire.objectId changed = None →
     Client.onMessage_ changed Client.new
     = (Throw (TypeError "Cannot read property 'emit_' of undefined"),
        Client.new))
  ∧ (let c' := (Client.dispose (Wire.objectId changed) client_with_proxy).2 in
     Client.onMessage_ changed c'
     = (Throw (TypeError "Cannot read property 'emit_' of undefined"), c')).
Proof.
  split; [reflexivity|]. split.
  - apply (C10_event_without_proxy_throws changed Client.new). reflexivity.
  - apply (C10_event_without_proxy_throws changed client_with_proxy).
    reflexivity.
Defined.

(** Before the disposal the same event is delivered. *)
Example event_reaches_listener :
  let c := (Client.on 0 (Some "changed") 7 client_with_proxy).2 in
  called_by c (Client.onMessage_ changed c).2 = [Client.Call 0 7 [VNum 1]].
Proof. vm_compute. reflexivity. Qed.

(** ** The Client: listeners *)

(** [off] changes nothing. *)
Lemma off_id event handler this : EventEmitter.off event handler this = this.
Proof. unfold EventEmitter.off. by case_match. Qed.

Lemma on_listeners event handler this :
  EventEmitter.listeners_ (EventEmitter.on event handler this) !! event
  = Some (default [] (EventEmitter.listeners_ this !! event) ++ [handler]).
Proof.
  unfold EventEmitter.on.
  destruct (EventEmitter.listeners_ this !! event); simpl;
    by rewrite lookup_insert_eq.
Qed.

(** C4, as the code has it: a handler registered with [on] is still called
    by an emission after [off(event, handler)], with the arguments of the
    emission, because [off] leaves the emitter as it was. So it is in the
    run [on('changed', h)], [off('changed', h)] on a proxy, after which the
    event [changed] arrives and [h] is called. *)
Theorem C4_off_leaves_the_handler_registered :
  (∀ (this : EventEmitter.t) (event : EventEmitter.event_t)
     (handler : EventEmitter.handler) (args : list value),
     let registered := EventEmitter.on event handler this in
     EventEmitter.off event handler registered = registered
     ∧ (handler, args)
       ∈ EventEmitter.emit_ event args
           (EventEmitter.off event handler registered))
  ∧ (let c1 := (Client.on 0 (Some "changed") 7 client_with_proxy).2 in
     let c2 := (Client.off 0 (Some "changed") 7 c1).2 in
     called_by c2 (Client.onMessage_ changed c2).2
     = [Client.Call 0 7 [VNum 1]]).
Proof.
  split; [|vm_compute; reflexivity].
  intros this event handler args registered. rewrite off_id. split; [done|].
  unfold EventEmitter.emit_, registered. rewrite on_listeners.
  apply list_elem_of_fmap. exists handler. split; [done|].
  apply elem_of_app. right. by apply list_elem_of_singleton.
Qed.

(** ** The Client: request ids *)

Section Client_ids.
Import Client.
Local Open Scope client_scope.

(** A response never takes an entry out of [callbacks_]. *)
Lemma onMessage__response_keeps_callbacks message c i :
  Wire.id message = Some i →
  callbacks_ (onMessage_ message c).2 = callbacks_ c.
Proof.
  intros Hi. unfold onMessage_, fulfil. rewrite Hi.
  by repeat case_match.
Qed.

Lemma step_sends o c :
  quiet c (step o c).2 ∨ ∃ m, quiet (sendMessage_ m c).2 (step o c).2.
Proof.
  unfold quiet.
  destruct o; simpl;
    unfold create, lookup, resume, invoke, dispose, on, off, onMessage_,
      wrap_, stub, sendMessage_, fulfil, log, proxy_set, bind, ret;
    repeat case_match; simplify_eq/=; eauto 10.
Qed.

Lemma ids_inv_new : ids_inv new.
Proof.
  split; [done|]. split; [done|]. intros i. simpl. rewrite lookup_empty.
  split; [lia|]. by intros [].
Qed.

Lemma ids_inv_sendMessage_ m c : ids_inv c → ids_inv (sendMessage_ m c).2.
Proof.
  intros (Hs&Hl&Hc). split; [|split]; simpl.
  - rewrite fmap_app, length_app, Hs. simpl.
    rewrite Nat.add_1_r, seq_S, fmap_app. simpl.
    by rewrite Hl, Nat2N.inj_succ.
  - rewrite length_app, Hl. simpl. lia.
  - intros i. destruct (decide (i = N.succ (lastId_ c))) as [->|Hne].
    + rewrite lookup_insert_eq. split; [done|]. lia.
    + rewrite lookup_insert_ne by done. rewrite <-Hc. lia.
Qed.

Lemma ids_inv_quiet c c' : quiet c c' → ids_inv c → ids_inv c'.
Proof. intros (Hl&Hc&Hs) H. unfold ids_inv. by rewrite Hl, Hc, Hs. Qed.

Lemma ids_inv_exec ops : ∀ c, ids_inv c → ids_inv (exec ops c).
Proof.
  induction ops as [|o ops IH]; intros c Hc; [done|].
  apply IH. destruct (step_sends o c) as [Hq|[m Hq]].
  - by eapply ids_inv_quiet.
  - eapply ids_inv_quiet; [done|]. by apply ids_inv_sendMessage_.
Qed.

Lemma NoDup_ids (n : nat) :
  NoDup ((λ i, Some (N.of_nat i)) <$> seq 1 n).
Proof.
  apply NoDup_fmap_2; [|apply NoDup_seq].
  intros i j [= E]. lia.
Qed.

Lemma ids_of_exec ops :
  let c := exec ops new in
  Wire.id <$> sent c = (λ i, Some (N.of_nat i)) <$> seq 1 (length (sent c))
  ∧ lastId_ c = N.of_nat (length (sent c))
  ∧ ∀ i, (1 ≤ i ≤ lastId_ c)%N ↔ is_Some (callbacks_ c !! i).
Proof. apply (ids_inv_exec ops new), ids_inv_new. Qed.

End Client_ids.

(** C8, as the code has it. Whatever the page and the channel do with a
    Client, the requests it has sent carry the ids 1, 2, 3, ... in the
    order of sending, so no id is used by two requests or used again; and
    every id handed out so far still has its entry in [callbacks_]: a
    response leaves the map as it is. *)
Theorem C8_ids_are_fresh_and_callbacks_are_kept (ops : list Client.op) :
  let c := Client.exec ops Client.new in
  Wire.id <$> Client.sent c
  = (λ i, Some (N.of_nat i)) <$> seq 1 (length (Client.sent c))
  ∧ NoDup (Wire.id <$> Client.sent c)
  ∧ Client.lastId_ c = N.of_nat (length (Client.sent c))
  ∧ (∀ i, (1 ≤ i ≤ Client.lastId_ c)%N
          ↔ is_Some (Client.callbacks_ c !! i))
  ∧ (∀ message i, Wire.id message = Some i →
       Client.callbacks_ (Client.onMessage_ message c).2
       = Client.callbacks_ c).
Proof.
  intros c. destruct (ids_of_exec ops) as (Hs&Hl&Hc). fold c in Hs, Hl, Hc.
  split; [done|]. split; [rewrite Hs; apply NoDup_ids|].
  split; [done|]. split; [done|].
  intros message i. apply onMessage__response_keeps_callbacks.
Qed.

(** C8 as stated fails on the first request of a Client: when the response
    to request 1 arrives, its promise is fulfilled and the entry of id 1 is
    still in [callbacks_]. *)
Lemma C8_counterexample :
  let c1 := (Client.sendMessage_ Wire.empty Client.new).2 in
  let c2 := (Client.onMessage_ (response 1 (Wire.RValue (VNum 5))) c1).2 in
  Client.promises c2 !! 0 = Some (Some (Wire.RValue (VNum 5)))
  ∧ Client.callbacks_ c2 !! 1%N = Some 0
  ∧ Client.callbacks_ c2 !! 1%N ≠ None.
Proof. repeat split; vm_compute; (reflexivity || discriminate). Qed.

(** ** The Client: correlation of responses *)

Section Client_correlation.
Import Client.
Local Open Scope client_scope.

(** [n] requests sent from [c]: the [k]-th (from 0) gets the id
    [lastId_ c + 1 + k] and a new pending promise, [length (promises c)
    + k], which [callbacks_] records under that id. *)
Lemma send_all_spec messages : ∀ c,
  ∃ c',
    send_all messages c
    = (Ok (seq (length (promises c)) (length messages)), c')
    ∧ lastId_ c' = (lastId_ c + N.of_nat (length messages))%N
    ∧ promises c' = promises c ++ replicate (length messages) None
    ∧ Wire.id <$> sent c'
      = (Wire.id <$> sent c) ++ next_ids c (length messages)
    ∧ (∀ k, k < length messages →
         callbacks_ c' !! (lastId_ c + N.of_nat (S k))%N
         = Some (length (promises c) + k))
    ∧ (∀ i, (i ≤ lastId_ c)%N → callbacks_ c' !! i = callbacks_ c !! i).
Proof.
  induction messages as [|m messages IH]; intros c; simpl.
  - exists c. unfold next_ids. simpl. rewrite !app_nil_r, N.add_0_r.
    repeat split; try done. lia.
  - unfold bind at 1. simpl.
    destruct (IH (sendMessage_ m c).2) as (c'&E&Hl&Hp&Hs&Hc&Hf).
    simpl in *. unfold bind at 1. rewrite E. simpl.
    exists c'. rewrite length_app in Hc. simpl in Hc.
    split; [unfold ret; by rewrite length_app, Nat.add_1_r|].
    split; [lia|].
    split; [by rewrite Hp, <-(assoc_L (++))|].
    split.
    { rewrite Hs, fmap_app, <-(assoc_L (++)). f_equal. unfold next_ids.
      simpl. f_equal; [f_equal; lia|].
      rewrite <-!fmap_S_seq, <-!list_fmap_compose.
      apply list_fmap_ext. intros _ k _. simpl. f_equal. lia. }
    split.
    + intros [|k] Hk.
      * rewrite Hf by lia. replace (lastId_ c + N.of_nat 1)%N
          with (N.succ (lastId_ c)) by lia.
        rewrite lookup_insert_eq. f_equal. lia.
      * replace (lastId_ c + N.of_nat (S (S k)))%N
          with (N.succ (lastId_ c) + N.of_nat (S k))%N by lia.
        rewrite Hc by lia. f_equal. lia.
    + intros i Hi. rewrite Hf by lia. apply lookup_insert_ne. lia.
Qed.

(** Responses with distinct ids, each for an id whose promise is pending,
    no two of these ids sharing a promise: every one fulfils the promise of
    its own id, whatever the order of arrival. *)
Lemma dispatch_responses responses : ∀ c,
  NoDup (Wire.id <$> responses) →
  (∀ m, m ∈ responses →
     ∃ i p, Wire.id m = Some i ∧ callbacks_ c !! i = Some p
            ∧ promises c !! p = Some None) →
  (∀ m m' i i' p, m ∈ responses → m' ∈ responses →
     Wire.id m = Some i → Wire.id m' = Some i' →
     callbacks_ c !! i = Some p → callbacks_ c !! i' = Some p → i = i') →
  ∃ c',
    dispatch_all responses c = (replicate (length responses) (Ok ()), c')
    ∧ callbacks_ c' = callbacks_ c
    ∧ (∀ m i p, m ∈ responses → Wire.id m = Some i →
         callbacks_ c !! i = Some p →
         promises c' !! p = Some (Some (Wire.result m)))
    ∧ (∀ p, (∀ m i, m ∈ responses → Wire.id m = Some i →
               callbacks_ c !! i ≠ Some p) →
         promises c' !! p = promises c !! p).
Proof.
  induction responses as [|m responses IH]; intros c Hnd Hpend Hinj; simpl.
  - exists c. repeat split; try done. intros ??? []%elem_of_nil.
  - apply NoDup_cons in Hnd as [Hm Hnd].
    destruct (Hpend m) as (i&p&Hi&Hcb&Hp); [left|].
    unfold onMessage_ at 1. rewrite Hi, Hcb. unfold fulfil. rewrite Hp.
    match goal with
    | |- context [ dispatch_all responses ?c1 ] =>
        destruct (IH c1) as (c'&E&Hcb'&Hres&Hframe); [done|..]
    end.
    { intros m' Hm'. destruct (Hpend m') as (i'&p'&Hi'&Hcb1&Hp'); [by right|].
      exists i', p'. simpl. split; [done|]. split; [done|].
      rewrite list_lookup_insert_ne; [done|]. intros <-.
      assert (i = i') as <-; [by eapply (Hinj m m'); [left|right|..]|].
      apply Hm. rewrite Hi, <-Hi'. apply list_elem_of_fmap. by exists m'. }
    { intros m1 m2 i1 i2 p' ??????. eapply (Hinj m1 m2); by try right. }
    simpl in *. rewrite E. exists c'. split; [done|]. split; [done|]. split.
    + intros m' i' p' [->|Hm']%elem_of_cons Hi' Hcb1.
      * assert (i' = i) as -> by congruence.
        assert (p' = p) as -> by congruence.
        rewrite Hframe.
        { apply list_lookup_insert_eq. by eapply lookup_lt_Some. }
        intros m2 i2 Hm2 Hi2 Hcb2.
        assert (i = i2) as <-; [by eapply (Hinj m m2); [left|right|..]|].
        apply Hm. rewrite Hi, <-Hi2. apply list_elem_of_fmap. by exists m2.
      * by eapply Hres.
    + intros p' Hp'. rewrite Hframe.
      * apply list_lookup_insert_ne. intros <-. by eapply (Hp' m); [left|..].
      * intros m2 i2 Hm2. apply Hp'. by right.
Qed.

End Client_correlation.

Section Client_in_flight.
Import Client.

Lemma next_ids_lookup c n k :
  k < n → next_ids c n !! k = Some (Some (lastId_ c + N.of_nat (S k))%N).
Proof.
  intros Hk. unfold next_ids. rewrite list_lookup_fmap, lookup_seq_lt by done.
  done.
Qed.

Lemma next_ids_length c n : length (next_ids c n) = n.
Proof. unfold next_ids. by rewrite length_fmap, length_seq. Qed.

Lemma next_ids_NoDup c n : NoDup (next_ids c n).
Proof.
  apply NoDup_fmap_2; [|apply NoDup_seq]. intros i j [= E]. lia.
Qed.

(** A pair of the zip of the ids with the results names a request. *)
Lemma elem_of_zip_next_ids c n (results : list Wire.result_t) i r :
  length results = n →
  (i, r) ∈ zip (next_ids c n) results ↔
  ∃ k, k < n ∧ i = Some (lastId_ c + N.of_nat (S k))%N
       ∧ results !! k = Some r.
Proof.
  intros Hlen. rewrite list_elem_of_lookup. split.
  - intros [k Hk]. apply lookup_zip_with_Some in Hk as (i'&r'&[= <- <-]&Hi&Hr).
    assert (k < n) by (rewrite <-Hlen; by eapply lookup_lt_Some).
    rewrite next_ids_lookup in Hi by done. exists k. naive_solver.
  - intros (k&Hk&->&Hr). exists k. apply lookup_zip_with_Some.
    eexists _, _. split; [done|]. split; [by apply next_ids_lookup|done].
Qed.

End Client_in_flight.

(** C3. From any state of the Client, let [N] requests be sent; they get
    [N] distinct ids and [N] new pending promises. Let then the [N]
    responses arrive in any order, each carrying the id of one request and
    the result meant for it. Every dispatch returns, and the promise of
    the [k]-th request is fulfilled with the [k]-th result, that of the
    response bearing its own id. *)
Theorem C3_responses_resolve_their_own_request
    (c : Client.t) (requests : list Wire.message)
    (results : list Wire.result_t) (responses : list Wire.message) :
  length results = length requests →
  (λ m, (Wire.id m, Wire.result m)) <$> responses
    ≡ₚ zip (next_ids c (length requests)) results →
  ∃ c1 c2,
    Client.send_all requests c
    = (Ok (seq (length (Client.promises c)) (length requests)), c1)
    ∧ Wire.id <$> drop (length (Client.sent c)) (Client.sent c1)
      = next_ids c (length requests)
    ∧ NoDup (next_ids c (length requests))
    ∧ (∀ k, k < length requests →
         Client.promises c1 !! (length (Client.promises c) + k) = Some None)
    ∧ Client.dispatch_all responses c1
      = (replicate (length responses) (Ok ()), c2)
    ∧ ∀ k r, results !! k = Some r →
        Client.promises c2 !! (length (Client.promises c) + k)
        = Some (Some r).
Proof.
  intros Hlen Hperm.
  destruct (send_all_spec requests c) as (c1&Hsend&Hl&Hp&Hs&Hcb&_).
  assert (∀ k, k < length requests →
            Client.promises c1 !! (length (Client.promises c) + k)
            = Some None) as Hpending.
  { intros k Hk. rewrite Hp, lookup_app_r by lia.
    replace (length (Client.promises c) + k - length (Client.promises c))
      with k by lia.
    by apply lookup_replicate_2. }
  assert (∀ m, m ∈ responses →
            ∃ k, k < length requests
                 ∧ Wire.id m = Some (Client.lastId_ c + N.of_nat (S k))%N
                 ∧ results !! k = Some (Wire.result m)) as Hresp.
  { intros m Hm. apply (elem_of_zip_next_ids c); [done|].
    rewrite <-Hperm. apply list_elem_of_fmap. by exists m. }
  destruct (dispatch_responses responses c1) as (c2&Hd&_&Hres&_).
  - assert (Wire.id <$> responses
            ≡ₚ next_ids c (length requests)) as ->.
    { rewrite <-(fst_zip (next_ids c (length requests)) results)
        by (rewrite next_ids_length; lia).
      rewrite <-Hperm, <-list_fmap_compose. done. }
    apply next_ids_NoDup.
  - intros m Hm. destruct (Hresp m Hm) as (k&Hk&Hi&_).
    eexists _, _. split; [done|]. split; [by apply Hcb|by apply Hpending].
  - intros m m' i i' p Hm Hm' Hi Hi' Hp1 Hp2.
    destruct (Hresp m Hm) as (k&Hk&Hik&_).
    destruct (Hresp m' Hm') as (k'&Hk'&Hik'&_).
    rewrite Hi in Hik. rewrite Hi' in Hik'.
    injection Hik as ->. injection Hik' as ->.
    rewrite Hcb in Hp1, Hp2 by done.
    assert (k = k') as -> by (simplify_eq; lia). done.
  - exists c1, c2. split; [done|]. split.
    { rewrite fmap_drop, Hs, <-(length_fmap Wire.id).
      by rewrite drop_app_length. }
    split; [apply next_ids_NoDup|]. split; [done|]. split; [done|].
    intros k r Hr.
    assert (k < length requests) as Hk
      by (rewrite <-Hlen; by eapply lookup_lt_Some).
    assert ((Some (Client.lastId_ c + N.of_nat (S k))%N, r)
            ∈ (λ m, (Wire.id m, Wire.result m)) <$> responses) as Hin.
    { rewrite Hperm. apply elem_of_zip_next_ids; [done|]. by exists k. }
    apply list_elem_of_fmap in Hin as (m&[= Hi ->]&Hm).
    eapply Hres; [done..|]. by apply Hcb.
Qed.

Lemma C3_witness :
  let requests :=
    [Example.create "Counter" 0; Example.lookup "clock" 0;
     Example.invoke "create#Counter#1#" "increment" [] 0] in
  let results :=
    [Wire.RDescr ["increment"; "fail"] "create#Counter#1#";
     Wire.RDescr ["now"] "lookup#clock#2#"; Wire.RValue (VNum 1)] in
  let responses :=
    [response 3 (Wire.RValue (VNum 1));
     response 1 (Wire.RDescr ["increment"; "fail"] "create#Counter#1#");
     response 2 (Wire.RDescr ["now"] "lookup#clock#2#")] in
  length results = length requests
  ∧ ∃ c1 c2,
      Client.send_all requests Client.new = (Ok [0; 1; 2], c1)
      ∧ Wire.id <$> drop 0 (Client.sent c1) = next_ids Client.new 3
      ∧ NoDup (next_ids Client.new 3)
      ∧ (∀ k, k < 3 → Client.promises c1 !! (0 + k) = Some None)
      ∧ Client.dispatch_all responses c1 = (replicate 3 (Ok ()), c2)
      ∧ ∀ k r, results !! k = Some r →
          Client.promises c2 !! (0 + k) = Some (Some r).
Proof.
  intros requests results responses. split; [reflexivity|].
  apply (C3_responses_resolve_their_own_request
           Client.new requests results responses); [reflexivity|].
  simpl. etrans; [apply perm_swap|]. apply perm_skip, perm_swap.
Defined.

(** The run of the witness: the promises hold the results in the order of
    the requests, not in the order of arrival. *)
Example responses_out_of_order :
  let c1 := (Client.send_all [Wire.empty; Wire.empty; Wire.empty]
                             Client.new).2 in
  Client.promises
    (Client.dispatch_all
       [response 3 (Wire.RValue (VNum 30)); response 1 (Wire.RValue (VNum 10));
        response 2 (Wire.RValue (VNum 20))] c1).2
  = [Some (Wire.RValue (VNum 10)); Some (Wire.RValue (VNum 20));
     Some (Wire.RValue (VNum 30))].
Proof. vm_compute. reflexivity. Qed.

(** ** Lookups of one service *)

Section Server_lookup_again.
Import Server Host.

Lemma assoc_set_same {V} (l : list (string * V)) k v :
  assoc (assoc_set l k v) k = Some v.
Proof.
  induction l as [|[k' v'] l IH]; simpl.
  - by rewrite String.eqb_refl.
  - destruct (String.eqb k' k) eqn:E; simpl; by rewrite E.
Qed.

Lemma get_set o k v : get (set o k v) k = v.
Proof. unfold get, set. simpl. by rewrite assoc_set_same. Qed.

Lemma run_monotone messages : ∀ s,
  (lastObjectId_ s ≤ lastObjectId_ (run messages s))%N
  ∧ services_ (run messages s) = services_ s
  ∧ length (heap s) ≤ length (heap (run messages s)).
Proof.
  induction messages as [|m messages IH]; intros s; [done|].
  rewrite run_cons. destruct (IH (onMessage_ m s).2) as (Hn&Hs&Hh).
  destruct (onMessage__catalogs m s) as (_&Hs'&Hh').
  split; [|split; [congruence|lia]].
  destruct (onMessage__minted m s) as [[E _]|(_&E&_)]; lia.
Qed.

(** The closure installed by the latest registration is the one that
    [emit] runs. *)
Lemma emit_forwards s r o objectId event args :
  heap s !! r = Some o →
  get o "emit" = HForward objectId →
  emit r event args s
  = (Ok (),
     Make (lastObjectId_ s) (factories_ s) (services_ s) (objects_ s)
          (heap s) (outbox s ++ [Wire.event objectId (Some event) args])
          (minted s)).
Proof. intros Hr He. unfold emit. by rewrite Hr, He. Qed.

End Server_lookup_again.

Section Client_registry.
Import Client.

Lemma on_objectId_ event handler this :
  EventEmitter.objectId_ (EventEmitter.on event handler this)
  = EventEmitter.objectId_ this.
Proof.
  unfold EventEmitter.on. by destruct (EventEmitter.listeners_ this !! event).
Qed.

(** What an operation can do to the registry and to the proxies. *)
Lemma step_registry o c :
  let c' := (step o c).2 in
  (objects_ c' = objects_ c ∧ proxies c' = proxies c)
  ∨ (∃ k, objects_ c' = delete k (objects_ c) ∧ proxies c' = proxies c)
  ∨ (∃ r p p', proxies c !! r = Some p
               ∧ EventEmitter.objectId_ (emitter p')
                 = EventEmitter.objectId_ (emitter p)
               ∧ objects_ c' = objects_ c
               ∧ proxies c' = <[r := p']> (proxies c))
  ∨ (∃ k methods,
       objects_ c' = <[k := length (proxies c)]> (objects_ c)
       ∧ proxies c' = proxies c ++ [Proxy (EventEmitter.new k) methods]).
Proof.
  destruct o; simpl;
    unfold create, lookup, resume, invoke, dispose, on, off, onMessage_,
      wrap_, stub, sendMessage_, fulfil, log, proxy_set, bind, ret;
    repeat case_match; simplify_eq/=; eauto 10.
  all: try (rewrite (insert_app_r_alt _ _ (length (proxies c))) by lia;
            rewrite Nat.sub_diag; simpl; by eauto 10).
  - right. right. left. eexists _, _, _. split; [done|].
    split; [|done]. simpl. apply on_objectId_.
  - right. right. left. eexists _, _, _. split; [done|].
    split; [|done]. simpl. by rewrite off_id.
Qed.

Lemma registry_sound_step o c :
  registry_sound c → registry_sound (step o c).2.
Proof.
  intros Hc.
  destruct (step_registry o c)
    as [[Ho Hp]|[(k&Ho&Hp)|[(r&p&p'&Hr&Hid&Ho&Hp)|(k&ms&Ho&Hp)]]];
    intros k' r' Hk'; rewrite Ho in Hk'; rewrite Hp.
  - by apply Hc.
  - apply lookup_delete_Some in Hk' as [_ Hk']. by apply Hc.
  - destruct (Hc k' r' Hk') as (q&Hq&Hqid).
    destruct (decide (r = r')) as [->|Hne].
    + exists p'. rewrite list_lookup_insert_eq by (by eapply lookup_lt_Some).
      split; [done|]. congruence.
    + exists q. by rewrite list_lookup_insert_ne.
  - apply lookup_insert_Some in Hk' as [[<- <-]|[_ Hk']].
    + eexists. split; [by apply list_lookup_middle|done].
    + destruct (Hc k' r' Hk') as (q&Hq&Hqid). exists q.
      split; [|done]. by apply lookup_app_l_Some.
Qed.

Lemma registry_sound_reachable c : reachable c → registry_sound c.
Proof.
  intros [ops ->]. cut (∀ c, registry_sound c → registry_sound (exec ops c)).
  { intros H. apply H. intros k r. simpl. by rewrite lookup_empty. }
  induction ops as [|o ops IH]; intros c Hc; [done|].
  apply IH. by apply registry_sound_step.
Qed.

(** An event is delivered to the proxy registered under its objectId and
    to no other. *)
Lemma event_receiver message c :
  Wire.id message = None →
  Forall (λ call, objects_ c !! Wire.objectId message = Some (receiver call))
         (called_by c (onMessage_ message c).2).
Proof.
  intros Hid. unfold called_by, onMessage_, stub, sendMessage_, log, bind, ret.
  rewrite Hid.
  repeat case_match; simplify_eq/=; rewrite ?drop_all; try by constructor.
  rewrite drop_app_length. apply Forall_fmap, Forall_true.
  by intros [??].
Qed.

End Client_registry.

(** C9. Let a service be looked up, then anything be handled, then the
    same service be looked up again. Both lookups register the one
    instance, under two different ObjectIds, and each overwrites the
    instance's [emit] with a closure over its own id. After the second
    lookup every emission of the instance leaves as one event message that
    carries the second id, and on any Client the page can have, the
    delivery of that event calls no listener of the proxy registered for
    the first id. *)
Theorem C9_emissions_follow_the_latest_lookup
    (s : Server.t) (name : string) (r : nat) (o : Host.object)
    (m1 m2 : Wire.message) (between : list Wire.message) :
  truthy_name (Wire.create m1) = false → Wire.lookup m1 = Some name →
  truthy_name (Wire.create m2) = false → Wire.lookup m2 = Some name →
  name ≠ "" →
  Server.services_ s !! name = Some r →
  Server.heap s !! r = Some o →
  let s1 := (Server.onMessage_ m1 s).2 in
  let s1' := Server.run between s1 in
  let s2 := (Server.onMessage_ m2 s1').2 in
  let id1 := Server.ObjectId "lookup" name (N.succ (Server.lastObjectId_ s)) in
  let id2 :=
    Server.ObjectId "lookup" name (N.succ (Server.lastObjectId_ s1')) in
  Server.objects_ s1 !! id1 = Some (Some r)
  ∧ Server.objects_ s2 !! id2 = Some (Some r)
  ∧ id1 ≠ id2
  ∧ (∃ o1, Server.heap s1 !! r = Some o1
           ∧ Host.get o1 "emit" = Host.HForward id1)
  ∧ (∃ o2, Server.heap s2 !! r = Some o2
           ∧ Host.get o2 "emit" = Host.HForward id2)
  ∧ (∀ event args,
       (Server.emit r event args s2).1 = Ok ()
       ∧ sent_by s2 (Server.emit r event args s2).2
         = [Wire.event id2 (Some event) args])
  ∧ (∀ event args c p1,
       reachable c →
       Client.objects_ c !! Some id1 = Some p1 →
       Forall (λ call, Client.receiver call ≠ p1)
              (called_by c
                 (Client.onMessage_ (Wire.event id2 (Some event) args) c).2)).
Proof.
  intros Hc1 Hl1 Hc2 Hl2 Hname Hs Hr s1 s1' s2 id1 id2.
  assert (truthy_name (Some name) = true) as Htruthy.
  { simpl. by destruct (String.eqb_spec name ""). }
  pose proof (onMessage__lookup_registered m1 s r o) as Es1.
  rewrite Hl1 in Es1. simpl in Es1. fold s1 id1 in Es1.
  destruct (Es1 Hc1 Htruthy Hs Hr) as (En1 & _ & Esv1 & Eo1 & Eh1 & _).
  clear Es1.
  destruct (run_monotone between s1) as (Hn&Hs'&Hh).
  fold s1' in Hn, Hs', Hh.
  assert (is_Some (Server.heap s1' !! r)) as [o' Hr'].
  { apply lookup_lt_is_Some. apply lookup_lt_Some in Hr.
    rewrite Eh1, length_insert in Hh. lia. }
  pose proof (onMessage__lookup_registered m2 s1' r o') as Es2.
  rewrite Hl2 in Es2. simpl in Es2. fold s2 id2 in Es2.
  destruct (Es2 Hc2 Htruthy) as (_ & _ & _ & Eo2 & Eh2 & _);
    [by rewrite Hs', Esv1|done|]. clear Es2.
  assert (id1 ≠ id2) as Hne.
  { intros E%ObjectId_seq_inj. rewrite En1 in Hn. lia. }
  split; [rewrite Eo1; apply lookup_insert_eq|].
  split; [rewrite Eo2; apply lookup_insert_eq|].
  split; [done|].
  split.
  { eexists. rewrite Eh1. split.
    - apply list_lookup_insert_eq. by eapply lookup_lt_Some.
    - apply get_set. }
  assert (Server.heap s2 !! r
          = Some (Host.set o' "emit" (Host.HForward id2))) as Hr2.
  { rewrite Eh2. apply list_lookup_insert_eq.
    by eapply lookup_lt_Some. }
  split; [eexists; split; [exact Hr2|apply get_set]|].
  split.
  - intros event args.
    rewrite (emit_forwards s2 r _ id2 event args Hr2 (get_set _ _ _)).
    simpl. split; [done|]. unfold sent_by. simpl.
    by rewrite drop_app_length.
  - intros event args c p1 Hreach Hp1.
    apply registry_sound_reachable in Hreach.
    eapply Forall_impl; [by apply event_receiver|]. simpl.
    intros call Hcall <-.
    destruct (Hreach _ _ Hp1) as (p&Hp&Hid1).
    destruct (Hreach _ _ Hcall) as (p'&Hp'&Hid2).
    congruence.
Qed.

Lemma C9_witness :
  let s := Example.server in
  let m1 := Example.lookup "clock" 1 in
  let m2 := Example.lookup "clock" 3 in
  let between := [Example.create "Counter" 2] in
  Server.services_ s !! "clock" = Some 0
  ∧ Server.heap s !! 0 = Some Example.clock
  ∧ let s1 := (Server.onMessage_ m1 s).2 in
    let s1' := Server.run between s1 in
    let s2 := (Server.onMessage_ m2 s1').2 in
    let id1 :=
      Server.ObjectId "lookup" "clock" (N.succ (Server.lastObjectId_ s)) in
    let id2 :=
      Server.ObjectId "lookup" "clock" (N.succ (Server.lastObjectId_ s1')) in
    Server.objects_ s1 !! id1 = Some (Some 0)
    ∧ Server.objects_ s2 !! id2 = Some (Some 0)
    ∧ id1 ≠ id2
    ∧ (∃ o1, Server.heap s1 !! 0 = Some o1
             ∧ Host.get o1 "emit" = Host.HForward id1)
    ∧ (∃ o2, Server.heap s2 !! 0 = Some o2
             ∧ Host.get o2 "emit" = Host.HForward id2)
    ∧ (∀ event args,
         (Server.emit 0 event args s2).1 = Ok ()
         ∧ sent_by s2 (Server.emit 0 event args s2).2
           = [Wire.event id2 (Some event) args])
    ∧ (∀ event args c p1,
         reachable c →
         Client.objects_ c !! Some id1 = Some p1 →
         Forall (λ call, Client.receiver call ≠ p1)
                (called_by c
                   (Client.onMessage_ (Wire.event id2 (Some event) args)
                                      c).2)).
Proof.
  intros s m1 m2 between.
  assert (Server.services_ s !! "clock" = Some 0) as Hs
    by (vm_compute; reflexivity).
  assert (Server.heap s !! 0 = Some Example.clock) as Hr by reflexivity.
  assert ("clock" ≠ "") as Hname by discriminate.
  split; [exact Hs|]. split; [exact Hr|].
  exact (C9_emissions_follow_the_latest_lookup
           s "clock" 0 Example.clock m1 m2 between
           eq_refl eq_refl eq_refl eq_refl Hname Hs Hr).
Defined.

(** The run of C9 on both sides: the page looks [clock] up twice and
    listens to [tick] on both proxies (listener 1 on the first, listener 2
    on the second); the clock emits [tick]; only listener 2 is called. *)
Example second_lookup_takes_the_events :
  let s := Server.run [Example.lookup "clock" 1; Example.lookup "clock" 2]
                      Example.server in
  let c := Client.exec
             [Client.Lookup (Some "clock"); Client.Lookup (Some "clock");
              Client.Dispatch (response 1 (Wire.RDescr ["now"] "lookup#clock#1#"));
              Client.Resume 0;
              Client.Dispatch (response 2 (Wire.RDescr ["now"] "lookup#clock#2#"));
              Client.Resume 1;
              Client.On 0 (Some "tick") 1; Client.On 1 (Some "tick") 2]
             Client.new in
  Server.outbox s
  = [Wire.describe_reply (Some 1%N) ["now"] "lookup#clock#1#";
     Wire.describe_reply (Some 2%N) ["now"] "lookup#clock#2#"]
  ∧ sent_by s (Server.emit 0 "tick" [VNum 42] s).2
    = [Wire.event "lookup#clock#2#" (Some "tick") [VNum 42]]
  ∧ called_by c
      (Client.onMessage_
         (Wire.event "lookup#clock#2#" (Some "tick") [VNum 42]) c).2
    = [Client.Call 1 2 [VNum 42]].
Proof. repeat split; vm_compute; reflexivity. Qed.

(** * Further properties of the Server *)

(** ** Invocations *)

Section Server_call.
Import Server Host.
Local Open Scope server_scope.

Lemma is_invoke_spec m :
  is_invoke m = true →
  is_request m = false ∧ truthy (Wire.dispose m) = false.
Proof.
  unfold is_invoke. intros [H1 H2]%andb_true_iff.
  by apply negb_true_iff in H1, H2.
Qed.

(** A call writes the heap and the outbox, nothing else; the heap it
    leaves is the one the method made. *)
Lemma call_frame object method args s :
  let s' := (call object method args s).2 in
  lastObjectId_ s' = lastObjectId_ s
  ∧ minted s' = minted s
  ∧ factories_ s' = factories_ s
  ∧ services_ s' = services_ s
  ∧ objects_ s' = objects_ s
  ∧ (heap s' = heap s
     ∨ ∃ r o f a,
         object = Some r ∧ heap s !! r = Some o
         ∧ get o (prop_key method) = HFun f
         ∧ heap s'
           = write_all (writes (f (view (heap s)) r a))
               (<[r := set_state o (new_state (f (view (heap s)) r a))]>
                  (heap s))).
Proof.
  unfold call. destruct object as [r|]; simpl; [|by auto 10].
  destruct (heap s !! r) as [o|] eqn:Hr; simpl; [|by auto 10].
  destruct (get o (prop_key method)) as [|v|f|oid] eqn:Hf;
    destruct args as [a|]; simpl; try by auto 10.
  unfold bind, send_all, heap_put, ret, throw. simpl.
  destruct (completion _); simpl; split_and!; try done;
    right; by exists r, o, f, a.
Qed.

End Server_call.

Section Server_invoke_cases.
Import Server Host.
Local Open Scope server_scope.


End Server_invoke_cases.



(** After [increment()] the own property [count] of the Counter is 1. *)
Example increment_writes_count :
  let message := Example.invoke "create#Counter#1#" "increment" [] 2 in
  Host.get counter1 "count" = Host.HData (VNum 0)
  ∧ (λ o, Host.get o "count")
      <$> Server.heap (Server.onMessage_ message server_with_counter).2 !! 1
    = Some (Host.HData (VNum 1)).
Proof. split; vm_compute; reflexivity. Qed.

(** An invocation of a property that is not a function (the method is
    unknown, or the name leads to data), or an invocation that carries no
    [args], throws a TypeError and leaves the Server as it was: nothing is
    sent. *)
Theorem invocation_of_no_function_throws
    (message : Wire.message) (s : Server.t) (r : nat) (o : Host.object) :
  is_invoke message = true →
  Server.objects_get (Wire.objectId message) s = Some r →
  Server.heap s !! r = Some o →
  Host.is_function (Host.get o (prop_key (Wire.method message))) = false
  ∨ Wire.args message = None →
  ∃ what, Server.onMessage_ message s = (Throw (TypeError what), s).
Proof.
  intros [Hr Hd]%is_invoke_spec Hg Ho Hbad.
  rewrite onMessage__invoke by done.
  unfold Server.bind, Server.call. rewrite Hg. simpl. rewrite Ho.
  destruct Hbad as [Hf|Ha].
  - destruct (Host.get o _); try done;
      destruct (Wire.args message); by eexists.
  - rewrite Ha. destruct (Host.get o _); by eexists.
Qed.

Lemma invocation_of_no_function_throws_witness :
  let s := server_with_counter in
  let unknown := Example.invoke "create#Counter#1#" "decrement" [] 2 in
  let data := Example.invoke "create#Counter#1#" "version" [] 3 in
  (is_invoke unknown = true
   ∧ ∃ what, Server.onMessage_ unknown s = (Throw (TypeError what), s))
  ∧ (is_invoke data = true
     ∧ ∃ what, Server.onMessage_ data s = (Throw (TypeError what), s)).
Proof.
  intros s unknown data.
  assert (Server.heap s !! 1 = Some counter1) as Ho by reflexivity.
  split; (split; [reflexivity|]).
  - apply (invocation_of_no_function_throws unknown s 1 counter1);
      [reflexivity|vm_compute; reflexivity|exact Ho|left; reflexivity].
  - apply (invocation_of_no_function_throws data s 1 counter1);
      [reflexivity|vm_compute; reflexivity|exact Ho|left; reflexivity].
Defined.

(** The closure of line 70 is an own property of every registered
    instance, so the page can invoke [emit] although no reply lists it:
    the Server then sends the page an event named by the first argument,
    with the remaining arguments, under the ObjectId of the closure, and
    answers the invocation with [undefined]. *)
Theorem invocation_of_emit_sends_an_event
    (message : Wire.message) (s : Server.t) (r : nat) (o : Host.object)
    (objectId event : string) (rest : list value) :
  is_invoke message = true →
  Server.objects_get (Wire.objectId message) s = Some r →
  Server.heap s !! r = Some o →
  Wire.method message = Some "emit" →
  Host.get o "emit" = Host.HForward objectId →
  Wire.args message = Some (VStr event :: rest) →
  let s' := (Server.onMessage_ message s).2 in
  (Server.onMessage_ message s).1 = Ok ()
  ∧ Server.heap s' = Server.heap s
  ∧ sent_by s s'
    = [Wire.event objectId (Some event) rest;
       Wire.invoke_reply (Wire.id message) (Wire.objectId message) VUndef].
Proof.
  intros [Hr Hd]%is_invoke_spec Hg Ho Hm He Ha s'. unfold s'.
  rewrite onMessage__invoke by done.
  unfold Server.bind, Server.call. rewrite Hg. simpl. rewrite Ho, Hm. simpl.
  rewrite He, Ha. simpl. split; [done|]. split; [done|].
  unfold sent_by. simpl. by rewrite <-(assoc_L (++)), drop_app_length.
Qed.

Lemma invocation_of_emit_sends_an_event_witness :
  let message :=
    Example.invoke "create#Counter#1#" "emit" [VStr "changed"; VNum 9] 2 in
  let s := server_with_counter in
  let s' := (Server.onMessage_ message s).2 in
  is_invoke message = true
  ∧ Server.describe_ counter1 = Ok ["increment"; "fail"]
  ∧ (Server.onMessage_ message s).1 = Ok ()
  ∧ Server.heap s' = Server.heap s
  ∧ sent_by s s'
    = [Wire.event "create#Counter#1#" (Some "changed") [VNum 9];
       Wire.invoke_reply (Wire.id message) (Wire.objectId message) VUndef].
Proof.
  intros message s s'. split; [reflexivity|]. split; [reflexivity|].
  apply (invocation_of_emit_sends_an_event
           message s 1 counter1 "create#Counter#1#" "changed" [VNum 9]);
    solve [reflexivity | vm_compute; reflexivity].
Defined.

(** ** What is described and what can be invoked *)

Section Server_described.
Import Server Host.

Lemma assoc_Some_elem {V} (l : list (string * V)) k v :
  assoc l k = Some v → (k, v) ∈ l.
Proof.
  induction l as [|[k' v'] l IH]; simpl; [done|].
  destruct (String.eqb_spec k' k) as [->|_].
  - intros [= ->]. by left.
  - intros H. right. by apply IH.
Qed.



End Server_described.





(** ** Requests that fail, and the catalogs *)

(** A create request for a name that is no factory, or whose constructor
    throws, throws before line 64: the Server is as it was, no sequence
    number is used and nothing is registered or sent. The error is a
    TypeError for the unknown name and the constructor's own otherwise. *)
Theorem failed_create_changes_nothing
    (message : Wire.message) (s : Server.t) :
  truthy_name (Wire.create message) = true →
  (Server.factories_ s !! default "" (Wire.create message) = None →
   Server.onMessage_ message s
   = (Throw (TypeError "c is not a constructor"), s))
  ∧ (∀ c e,
       Server.factories_ s !! default "" (Wire.create message) = Some c →
       Host.construct c = Throw e →
       Server.onMessage_ message s = (Throw e, s)).
Proof.
  intros Hc. unfold Server.onMessage_, Server.bind, Server.ret, Server.new_.
  rewrite Hc. simpl. split.
  - by intros ->.
  - by intros c e -> ->.
Qed.

Lemma failed_create_changes_nothing_witness :
  truthy_name (Wire.create (Example.create "Nobody" 1)) = true
  ∧ Server.onMessage_ (Example.create "Nobody" 1) Example.server
    = (Throw (TypeError "c is not a constructor"), Example.server)
  ∧ Server.onMessage_ (Example.create "Broken" 2) Example.server
    = (Throw (Raised (VStr "no")), Example.server).
Proof.
  split; [reflexivity|]. split.
  - apply (proj1 (failed_create_changes_nothing
                    (Example.create "Nobody" 1) Example.server eq_refl)).
    vm_compute. reflexivity.
  - apply (proj2 (failed_create_changes_nothing
                    (Example.create "Broken" 2) Example.server eq_refl)
                 Example.Broken (Raised (VStr "no")));
      [vm_compute; reflexivity|reflexivity].
Defined.

(** A lookup request for a name that is no service throws a TypeError at
    line 70 and sends nothing, but lines 67 and 69 have run: a sequence
    number is used and the new ObjectId is registered with [undefined]. An
    invocation on that ObjectId throws as on an unregistered one. *)
Theorem failed_lookup_uses_an_id
    (message : Wire.message) (s : Server.t) :
  truthy_name (Wire.create message) = false →
  truthy_name (Wire.lookup message) = true →
  Server.services_ s !! default "" (Wire.lookup message) = None →
  let objectId :=
    Server.ObjectId "lookup" (default "" (Wire.lookup message))
                    (N.succ (Server.lastObjectId_ s)) in
  let s' := (Server.onMessage_ message s).2 in
  (Server.onMessage_ message s).1
  = Throw (TypeError "Cannot set property 'emit' of undefined")
  ∧ Server.lastObjectId_ s' = N.succ (Server.lastObjectId_ s)
  ∧ Server.minted s' = Server.minted s ++ [objectId]
  ∧ Server.objects_ s' = <[objectId := None]> (Server.objects_ s)
  ∧ Server.heap s' = Server.heap s
  ∧ Server.outbox s' = Server.outbox s
  ∧ (∀ m, is_invoke m = true → Wire.objectId m = Some objectId →
       Server.onMessage_ m s'
       = (Throw (TypeError "Cannot read property of undefined"), s')).
Proof.
  intros Hc Hl Hs objectId s'. unfold s'.
  rewrite onMessage__lookup_unknown by (by rewrite ?Hs). simpl.
  rewrite Hs. fold objectId. split_and!; try done.
  intros m [Hr Hd]%is_invoke_spec Hm.
  rewrite onMessage__invoke by done. rewrite Hm.
  unfold Server.objects_get. simpl. by rewrite lookup_insert_eq.
Qed.

Lemma failed_lookup_uses_an_id_witness :
  let message := Example.lookup "nobody" 1 in
  let s := Example.server in
  let s' := (Server.onMessage_ message s).2 in
  Server.services_ s !! "nobody" = None
  ∧ (Server.onMessage_ message s).1
    = Throw (TypeError "Cannot set property 'emit' of undefined")
  ∧ Server.lastObjectId_ s' = N.succ (Server.lastObjectId_ s)
  ∧ Server.minted s'
    = Server.minted s ++
        [Server.ObjectId "lookup" "nobody" (N.succ (Server.lastObjectId_ s))]
  ∧ Server.objects_ s'
    = <[Server.ObjectId "lookup" "nobody" (N.succ (Server.lastObjectId_ s))
        := None]> (Server.objects_ s)
  ∧ Server.heap s' = Server.heap s
  ∧ Server.outbox s' = Server.outbox s
  ∧ (∀ m, is_invoke m = true →
       Wire.objectId m
       = Some (Server.ObjectId "lookup" "nobody"
                               (N.succ (Server.lastObjectId_ s))) →
       Server.onMessage_ m s'
       = (Throw (TypeError "Cannot read property of undefined"), s')).
Proof.
  intros message s s'.
  assert (Server.services_ s !! "nobody" = None) as Hs
    by (vm_compute; reflexivity).
  split; [exact Hs|].
  exact (failed_lookup_uses_an_id message s eq_refl eq_refl Hs).
Defined.





(** A lookup of an object without prototype, as [Object.create(null)]
    makes, registers it and throws; a lookup of the clock is answered. *)
Example lookup_without_prototype :
  let s := (Server.alloc bare Example.server).2 in
  let message := Example.lookup "time" 1 in
  Server.onMessage_ message (Server.exposeObject "time" 1 s)
  = (Throw (TypeError "Cannot convert undefined or null to object"),
     Server.Make 1 (Server.factories_ s)
                 (<["time" := 1]> (Server.services_ s))
                 {["lookup#time#1#" := Some 1]}
                 [Example.clock;
                  Host.set bare "emit" (Host.HForward "lookup#time#1#")]
                 [] ["lookup#time#1#"])
  ∧ (Server.onMessage_ message (Server.exposeObject "time" 0 s)).1 = Ok ().
Proof. split; vm_compute; reflexivity. Qed.

(** ** The registry *)

Section Server_registry.
Import Server Host.

Lemma assoc_set_ne {V} (l : list (string * V)) k k' v :
  k ≠ k' → assoc (assoc_set l k' v) k = assoc l k.
Proof.
  intros Hne. induction l as [|[k0 v0] l IH]; simpl.
  - destruct (String.eqb_spec k' k); [congruence|done].
  - destruct (String.eqb_spec k0 k') as [->|Hk0]; simpl.
    + destruct (String.eqb_spec k' k); [congruence|done].
    + by rewrite IH.
Qed.

Lemma get_set_ne o k k' v : k ≠ k' → get (set o k' v) k = get o k.
Proof. intros Hne. unfold get, set. simpl. by rewrite assoc_set_ne. Qed.

(** Assignments to other properties leave a property as it is. *)
Lemma write_all_get ws k : ∀ heap r o,
  Forall (λ w, w.1.2 ≠ k) ws →
  heap !! r = Some o →
  ∃ o', write_all ws heap !! r = Some o' ∧ get o' k = get o k.
Proof.
  unfold write_all.
  induction ws as [|w ws IH]; intros heap r o Hws Hr; simpl; [by exists o|].
  apply Forall_cons in Hws as [Hw Hws]. unfold write at 2.
  destruct (heap !! w.1.1) as [o0|] eqn:Ho0; [|by apply IH].
  destruct (decide (w.1.1 = r)) as [E|Hne].
  - rewrite E in *. assert (o0 = o) as -> by congruence.
    destruct (IH (<[r := set o w.1.2 (HData w.2)]> heap) r
                 (set o w.1.2 (HData w.2)) Hws) as (o' & Ho' & Hget).
    { apply list_lookup_insert_eq. by eapply lookup_lt_Some. }
    exists o'. split; [done|]. rewrite Hget. by apply get_set_ne.
  - apply IH; [done|]. by rewrite list_lookup_insert_ne.
Qed.

Lemma table_keeps_emit_set (p : props) k v :
  table_keeps_emit p → (∀ f, v = HFun f → keeps_emit f) →
  table_keeps_emit (assoc_set p k v).
Proof.
  unfold table_keeps_emit. intros Hp Hv.
  induction Hp as [|[k0 v0] p H0 Hp IH]; simpl; [by repeat constructor|].
  destruct (String.eqb_spec k0 k); constructor; done.
Qed.

Lemma object_keeps_emit_set o k v :
  object_keeps_emit o → (∀ f, v = HFun f → keeps_emit f) →
  object_keeps_emit (set o k v).
Proof.
  unfold object_keeps_emit. simpl.
  intros [Hown Hprotos]%Forall_cons Hv. constructor; [|done].
  by apply table_keeps_emit_set.
Qed.

Lemma write_all_keeps_emit ws : ∀ heap,
  Forall object_keeps_emit heap → Forall object_keeps_emit (write_all ws heap).
Proof.
  unfold write_all. induction ws as [|w ws IH]; intros heap Hh; [done|].
  simpl. apply IH. unfold write.
  destruct (heap !! w.1.1) as [o|] eqn:Ho; [|done].
  apply Forall_insert; [done|]. apply object_keeps_emit_set; [|done].
  by eapply Forall_lookup_1 in Hh.
Qed.

Lemma get_chain_keeps_emit chain k f :
  Forall table_keeps_emit chain → get_chain chain k = HFun f → keeps_emit f.
Proof.
  induction 1 as [|p chain Hp _ IH]; simpl; [done|].
  destruct (assoc p k) as [v|] eqn:Hv; [|done]. intros ->.
  apply assoc_Some_elem in Hv.
  unfold table_keeps_emit in Hp. eapply Forall_forall in Hp; [|done].
  by apply Hp.
Qed.

(** The methods that can be reached stay the same ones. *)
Lemma methods_keep_emit_step message s :
  methods_keep_emit s → methods_keep_emit (onMessage_ message s).2.
Proof.
  intros [Hh Hc]. unfold methods_keep_emit.
  destruct (onMessage__catalogs message s) as (-> & _ & _).
  split; [|done]. destruct (is_request message) eqn:Hreq.
  - unfold is_request in Hreq.
    destruct (truthy_name (Wire.create message)) eqn:Hcr.
    + destruct (factories_ s !! default "" (Wire.create message))
        as [c|] eqn:Hf.
      2: { destruct (onMessage__create_fails message s Hcr) as [e ->];
             [by rewrite Hf|done]. }
      destruct (construct c) as [[own st]|e] eqn:Hn.
      2: { destruct (onMessage__create_fails message s Hcr) as [e' ->];
             [by rewrite Hf, Hn|done]. }
      destruct (onMessage__create message s c own st Hcr Hf Hn)
        as (methods & _ & ->). simpl.
      apply Forall_app. split; [done|]. constructor; [|done].
      destruct (Hc _ _ Hf) as [Hprotos Hown].
      apply object_keeps_emit_set; [|done].
      unfold object_keeps_emit. simpl. constructor; [by eapply Hown|done].
    + simpl in Hreq.
      destruct (services_ s !! default "" (Wire.lookup message)
                  ≫= (λ r, heap s !! r)) as [o|] eqn:Ho.
      * apply bind_Some in Ho as (r&Hs&Ho).
        destruct (onMessage__lookup_registered message s r o)
          as (_ & _ & _ & _ & -> & _); [done..|].
        apply Forall_insert; [done|]. apply object_keeps_emit_set; [|done].
        by eapply Forall_lookup_1 in Hh.
      * by rewrite onMessage__lookup_unknown by done.
  - destruct (truthy (Wire.dispose message)) eqn:Hd.
    + rewrite onMessage__dispose by done. unfold objects_delete.
      by destruct (Wire.objectId message).
    + rewrite onMessage__invoke by done. unfold bind, sendMessage_.
      pose proof (call_frame (objects_get (Wire.objectId message) s)
                    (Wire.method message) (Wire.args message) s) as Hcall.
      assert (∀ s1 : Server.t,
                (heap s1 = heap s
                 ∨ ∃ r o f a,
                     objects_get (Wire.objectId message) s = Some r
                     ∧ heap s !! r = Some o
                     ∧ get o (prop_key (Wire.method message)) = HFun f
                     ∧ heap s1
                       = write_all (writes (f (view (heap s)) r a))
                           (<[r := set_state o
                                     (new_state (f (view (heap s)) r a))]>
                              (heap s))) →
                Forall object_keeps_emit (heap s1)) as Hgoal.
      { intros s1 [->|(r&o&f&a&_&Ho&_&->)]; [done|].
        apply write_all_keeps_emit, Forall_insert; [done|].
        eapply Forall_lookup_1 in Hh; [|exact Ho]. exact Hh. }
      destruct (call _ _ _ s) as [[v|e] s1]; simpl in *;
        destruct Hcall as (_&_&_&_&_&Hheap); by apply Hgoal.
Qed.

Lemma registry_forwards_step message s :
  services_valid s →
  methods_keep_emit s →
  registry_forwards s → registry_forwards (onMessage_ message s).2.
Proof.
  intros Hvalid [Hkeep _] Hinv. destruct (is_request message) eqn:Hreq.
  - unfold is_request in Hreq.
    destruct (truthy_name (Wire.create message)) eqn:Hc.
    + destruct (factories_ s !! default "" (Wire.create message))
        as [c|] eqn:Hf.
      2: { destruct (onMessage__create_fails message s Hc) as [e ->];
             [by rewrite Hf|done]. }
      destruct (construct c) as [[own st]|e] eqn:Hn.
      2: { destruct (onMessage__create_fails message s Hc) as [e' ->];
             [by rewrite Hf, Hn|done]. }
      destruct (onMessage__create message s c own st Hc Hf Hn)
        as (methods & _ & ->).
      intros k r. simpl. intros [[<- [= <-]]|[_ Hk]]%lookup_insert_Some.
      * eexists _, _. split; [by apply list_lookup_middle|apply get_set].
      * destruct (Hinv k r Hk) as (o&oid&Ho&He). exists o, oid.
        split; [by apply lookup_app_l_Some|done].
    + simpl in Hreq.
      destruct (services_ s !! default "" (Wire.lookup message)
                  ≫= (λ r, heap s !! r)) as [o|] eqn:Ho.
      * apply bind_Some in Ho as (r&Hs&Ho).
        destruct (onMessage__lookup_registered message s r o)
          as (_ & _ & _ & Eo & Eh & _); [done..|].
        intros k r'. rewrite Eo, Eh. intros Hk.
        destruct (decide (r' = r)) as [->|Hne].
        { eexists _, _. split; [|apply get_set].
          apply list_lookup_insert_eq. by eapply lookup_lt_Some. }
        apply lookup_insert_Some in Hk as [[_ [= ->]]|[_ Hk]]; [done|].
        destruct (Hinv k r' Hk) as (o'&oid&Ho'&He). exists o', oid.
        split; [by rewrite list_lookup_insert_ne|done].
      * rewrite onMessage__lookup_unknown by done.
        intros k r. simpl. intros Hk.
        apply lookup_insert_Some in Hk as [[_ Hk]|[_ Hk]];
          [|by apply (Hinv k r)].
        destruct (Hvalid _ _ Hk) as [o Hr]. by rewrite Hk in Ho; simpl in Ho;
          rewrite Hr in Ho.
  - destruct (truthy (Wire.dispose message)) eqn:Hd.
    + rewrite onMessage__dispose by done. unfold objects_delete.
      destruct (Wire.objectId message) as [k|]; simpl; [|done].
      intros k' r Hk'. simpl in Hk'.
      apply lookup_delete_Some in Hk' as [_ Hk']. by apply (Hinv k' r).
    + rewrite onMessage__invoke by done. unfold bind, sendMessage_.
      pose proof (call_frame (objects_get (Wire.objectId message) s)
                    (Wire.method message) (Wire.args message) s) as Hcall.
      assert (∀ s1 : Server.t,
                objects_ s1 = objects_ s →
                (heap s1 = heap s
                 ∨ ∃ r o f a,
                     objects_get (Wire.objectId message) s = Some r
                     ∧ heap s !! r = Some o
                     ∧ get o (prop_key (Wire.method message)) = HFun f
                     ∧ heap s1
                       = write_all (writes (f (view (heap s)) r a))
                           (<[r := set_state o
                                     (new_state (f (view (heap s)) r a))]>
                              (heap s))) →
                ∀ k r, objects_ s1 !! k = Some (Some r) →
                       ∃ o objectId, heap s1 !! r = Some o
                                     ∧ get o "emit" = HForward objectId)
        as Hgoal.
      { intros s1 Hobj Hheap k r. rewrite Hobj. intros Hk.
        destruct (Hinv k r Hk) as (o&oid&Ho&He).
        destruct Hheap as [->|(r0&o0&f&a&_&Ho0&Hf&->)]; [by exists o, oid|].
        assert (keeps_emit f) as Hkeepf.
        { eapply get_chain_keeps_emit; [|exact Hf].
          by eapply Forall_lookup_1 in Hkeep. }
        set (st := new_state (f (view (heap s)) r0 a)).
        assert (∃ o1, <[r0 := set_state o0 st]> (heap s) !! r = Some o1
                      ∧ get o1 "emit" = HForward oid) as (o1 & Ho1 & He1).
        { destruct (decide (r0 = r)) as [->|Hne].
          - exists (set_state o0 st).
            split; [apply list_lookup_insert_eq; by eapply lookup_lt_Some|].
            assert (o0 = o) as -> by congruence. done.
          - exists o. by rewrite list_lookup_insert_ne. }
        destruct (write_all_get (writes (f (view (heap s)) r0 a)) "emit"
                    _ r o1 (Hkeepf _ _ _) Ho1) as (o' & Ho' & Hget).
        exists o', oid. split; [done|]. by rewrite Hget. }
      destruct (call _ _ _ s) as [[v|e] s1]; simpl in *;
        destruct Hcall as (_&_&_&_&Hobj&Hheap); intros k r Hk;
        exact (Hgoal s1 Hobj Hheap k r Hk).
Qed.

End Server_registry.

Section Server_registry_run.
Import Server Host.

Lemma services_valid_step message s :
  services_valid s → services_valid (onMessage_ message s).2.
Proof.
  intros Hvalid name r. destruct (onMessage__catalogs message s) as (_&->&Hh).
  intros Hs. apply lookup_lt_is_Some.
  destruct (Hvalid name r Hs) as [o Ho]. apply lookup_lt_Some in Ho. lia.
Qed.

(** What one message does to the registry. *)
Lemma onMessage__objects message s :
  let s' := (onMessage_ message s).2 in
  (objects_ s' = objects_ s ∧ minted s' = minted s)
  ∨ (∃ k, objects_ s' = delete k (objects_ s) ∧ minted s' = minted s)
  ∨ (∃ k v, objects_ s' = <[k := v]> (objects_ s)
            ∧ minted s' = minted s ++ [k]).
Proof.
  destruct (is_request message) eqn:Hreq; simpl.
  - unfold is_request in Hreq.
    unfold onMessage_, bind, ret, new_, mint, objects_set, set_emit,
      heap_set, sendMessage_.
    rewrite Hreq. simpl.
    destruct (truthy_name (Wire.create message)); simpl;
      repeat case_match; simplify_eq/=; eauto 10.
  - destruct (truthy (Wire.dispose message)) eqn:Hd.
    + rewrite onMessage__dispose by done. unfold objects_delete.
      destruct (Wire.objectId message); simpl; eauto.
    + left. rewrite onMessage__invoke by done. unfold bind, sendMessage_.
      pose proof (call_frame (objects_get (Wire.objectId message) s)
                    (Wire.method message) (Wire.args message) s) as Hcall.
      destruct (call _ _ _ s) as [[v|e] s1]; simpl in *;
        by destruct Hcall as (_&?&_&_&?&_).
Qed.

Lemma registry_minted_step message s :
  registry_minted s → registry_minted (onMessage_ message s).2.
Proof.
  intros Hinv k.
  destruct (onMessage__objects message s)
    as [[-> ->]|[(k'&->&->)|(k'&v&->&->)]].
  - apply Hinv.
  - intros [v [_ Hk]%lookup_delete_Some]. by apply Hinv.
  - intros [v' [[<- _]|[_ Hk]]%lookup_insert_Some]; apply elem_of_app.
    + right. by apply list_elem_of_singleton.
    + left. by apply Hinv.
Qed.

End Server_registry_run.

(** Whatever messages a Server handles, its registry stays sound: every
    service stays an object of the heap and every registered ObjectId is
    one that was given to [objects_.set]; and, as long as no host method
    assigns the property [emit], every registered instance is an object
    of the heap whose [emit] is a closure of line 70, so that its
    emissions are forwarded to the page. *)
Theorem registry_stays_sound (messages : list Wire.message) (s : Server.t) :
  services_valid s →
  registry_minted s →
  services_valid (Server.run messages s)
  ∧ registry_minted (Server.run messages s)
  ∧ (methods_keep_emit s →
     registry_forwards s →
     methods_keep_emit (Server.run messages s)
     ∧ registry_forwards (Server.run messages s)).
Proof.
  revert s. induction messages as [|m messages IH]; intros s Hv Hm.
  - done.
  - rewrite run_cons.
    destruct (IH (Server.onMessage_ m s).2) as (Hv' & Hm' & Hf').
    + by apply services_valid_step.
    + by apply registry_minted_step.
    + split; [done|]. split; [done|]. intros Hk Hf. apply Hf'.
      * by apply methods_keep_emit_step.
      * by apply registry_forwards_step.
Qed.

Lemma methods_keep_emit_example : methods_keep_emit Example.server.
Proof.
  assert (∀ f, f = Example.native ∨ f = Example.increment
               ∨ f = Example.fail ∨ f = Example.now → keeps_emit f)
    as Hfun.
  { intros f Hf heap this args.
    destruct Hf as [-> | [-> | [-> | ->]]]; unfold Example.native,
      Example.increment, Example.fail, Example.now;
      repeat case_match; simpl; repeat constructor; done. }
  assert (∀ tables : list Host.props,
            Forall (Forall (λ e, (∀ f, e.2 = Host.HFun f →
               f = Example.native ∨ f = Example.increment
               ∨ f = Example.fail ∨ f = Example.now))) tables →
            Forall table_keeps_emit tables) as Htables.
  { intros tables Ht. eapply Forall_impl; [exact Ht|]. simpl.
    intros p Hp. unfold table_keeps_emit.
    eapply Forall_impl; [exact Hp|]. simpl. intros e He f Hf.
    by apply Hfun, He. }
  split.
  - unfold Example.server. simpl. apply Forall_cons_2; [|apply Forall_nil_2].
    unfold object_keeps_emit. apply Htables. simpl.
    repeat first [apply Forall_nil_2 | apply Forall_cons_2]; simpl;
      intros f [= <-]; auto.
  - unfold Example.server. simpl.
    apply map_Forall_insert_2; [|apply map_Forall_insert_2;
                                  [|apply map_Forall_empty]].
    + split; [|by intros own st [=]].
      apply Htables. simpl.
      repeat first [apply Forall_nil_2 | apply Forall_cons_2]; simpl;
        intros f [= <-]; auto.
    + split.
      * apply Htables. simpl.
        repeat first [apply Forall_nil_2 | apply Forall_cons_2]; simpl;
          intros f E; try discriminate E; injection E as <-; auto.
      * intros own st [= <- <-]. unfold table_keeps_emit.
        apply Forall_cons_2; [|apply Forall_nil_2]. simpl. by intros f.
Qed.

Lemma registry_stays_sound_witness :
  let messages :=
    [Example.create "Counter" 1; Example.lookup "clock" 2;
     Example.invoke "create#Counter#1#" "increment" [] 3;
     Example.lookup "nobody" 4; Example.dispose "lookup#clock#2#"] in
  services_valid Example.server
  ∧ registry_minted Example.server
  ∧ methods_keep_emit Example.server
  ∧ registry_forwards Example.server
  ∧ services_valid (Server.run messages Example.server)
  ∧ registry_minted (Server.run messages Example.server)
  ∧ methods_keep_emit (Server.run messages Example.server)
  ∧ registry_forwards (Server.run messages Example.server).
Proof.
  intros messages.
  assert (services_valid Example.server) as Hv.
  { intros name r Hs. apply lookup_lt_is_Some.
    unfold Example.server in Hs. simpl in Hs.
    apply lookup_insert_Some in Hs as [[_ <-]|[_ Hs]]; [simpl; lia|].
    by rewrite lookup_empty in Hs. }
  assert (registry_forwards Example.server) as Hf.
  { intros k r Hk. unfold Example.server in Hk. simpl in Hk.
    by rewrite lookup_empty in Hk. }
  assert (registry_minted Example.server) as Hm.
  { intros k [v Hk]. unfold Example.server in Hk. simpl in Hk.
    by rewrite lookup_empty in Hk. }
  split; [exact Hv|]. split; [exact Hm|].
  split; [exact methods_keep_emit_example|]. split; [exact Hf|].
  destruct (registry_stays_sound messages Example.server Hv Hm)
    as (Hv' & Hm' & Hf').
  split; [exact Hv'|]. split; [exact Hm'|].
  exact (Hf' methods_keep_emit_example Hf).
Defined.

(** Without that proviso the registry does not stay sound: a method that
    assigns [emit] on its receiver takes the closure of line 70 away. *)
Example method_that_assigns_emit :
  let s0 := Server.exposeFactory Muted Server.new in
  let s := Server.run [Example.create "Muted" 1;
                       Example.invoke "create#Muted#1#" "mute" [] 2] s0 in
  Server.objects_ s !! "create#Muted#1#" = Some (Some 0)
  ∧ (λ o, Host.get o "emit") <$> Server.heap s !! 0
    = Some (Host.HData VNull).
Proof. split; vm_compute; reflexivity. Qed.

(** * Further properties of the bootstrap *)

(** ** Listeners *)

Section Emitter_listeners.
Import EventEmitter.

Lemma emit__on event handler args this :
  emit_ event args (on event handler this)
  = emit_ event args this ++ [(handler, args)].
Proof.
  unfold emit_. rewrite on_listeners.
  destruct (listeners_ this !! event); simpl; [|done].
  by rewrite fmap_app.
Qed.

Lemma emit__on_other event event' handler args this :
  event' ≠ event →
  emit_ event' args (on event handler this) = emit_ event' args this.
Proof.
  intros Hne. unfold emit_, on.
  destruct (listeners_ this !! event); simpl;
    by rewrite !lookup_insert_ne by done.
Qed.

End Emitter_listeners.

(** Listeners registered with [on] for an event are called by [emit_] in
    the order of their registration, after those that were there, each
    with the arguments of the emission and as often as it was registered;
    the listeners of any other event are called as before. *)
Theorem listeners_are_called_in_registration_order
    (this : EventEmitter.t) (event event' : EventEmitter.event_t)
    (handlers : list EventEmitter.handler) (args : list value) :
  let registered :=
    foldl (λ e h, EventEmitter.on event h e) this handlers in
  EventEmitter.emit_ event args registered
  = EventEmitter.emit_ event args this ++ ((λ h, (h, args)) <$> handlers)
  ∧ (event' ≠ event →
     EventEmitter.emit_ event' args registered
     = EventEmitter.emit_ event' args this).
Proof.
  revert this. induction handlers as [|h handlers IH]; intros this; simpl.
  - by rewrite app_nil_r.
  - destruct (IH (EventEmitter.on event h this)) as [-> Hother]. split.
    + by rewrite emit__on, <-(assoc_L (++)).
    + intros Hne. rewrite Hother by done. by apply emit__on_other.
Qed.

(** ** Responses *)

Section Client_promises.
Import Client.

(** No operation writes a promise that is fulfilled. *)
Lemma step_keeps_fulfilled o c p r :
  promises c !! p = Some (Some r) →
  promises (step o c).2 !! p = Some (Some r).
Proof.
  intros Hp.
  assert (∀ q x, promises c !! q = Some None →
                 <[q := x]> (promises c) !! p = Some (Some r)) as Hins.
  { intros q x Hq. rewrite list_lookup_insert_ne; [done|]. congruence. }
  assert ((promises c ++ [None]) !! p = Some (Some r)) as Happ
    by (by apply lookup_app_l_Some).
  destruct o; simpl;
    unfold create, lookup, resume, invoke, dispose, on, off, onMessage_,
      wrap_, stub, sendMessage_, fulfil, log, proxy_set, bind, ret;
    repeat case_match; simplify_eq/=; eauto.
Qed.

End Client_promises.

(** A promise settles once: whatever the page and the channel do after a
    promise was fulfilled, a second response with the same id included,
    the promise keeps its result. *)
Theorem fulfilled_promise_keeps_its_result
    (ops : list Client.op) (c : Client.t) (p : nat) (r : Wire.result_t) :
  Client.promises c !! p = Some (Some r) →
  Client.promises (Client.exec ops c) !! p = Some (Some r).
Proof.
  revert c. induction ops as [|o ops IH]; intros c Hp; [done|].
  apply IH. by apply step_keeps_fulfilled.
Qed.

Lemma fulfilled_promise_keeps_its_result_witness :
  let c :=
    Client.exec [Client.Create (Some "Counter");
                 Client.Dispatch (response 1 (Wire.RValue (VNum 10)))]
                Client.new in
  Client.promises c !! 0 = Some (Some (Wire.RValue (VNum 10)))
  ∧ Client.promises
      (Client.exec [Client.Dispatch (response 1 (Wire.RValue (VNum 20)));
                    Client.Lookup (Some "clock")] c) !! 0
    = Some (Some (Wire.RValue (VNum 10))).
Proof.
  intros c.
  assert (Client.promises c !! 0 = Some (Some (Wire.RValue (VNum 10))))
    as Hp by reflexivity.
  split; [exact Hp|].
  exact (fulfilled_promise_keeps_its_result _ c 0 _ Hp).
Defined.

(** A response is accepted exactly when its id is one that this Client has
    handed out: [dispatchMessage] returns for the ids 1 to [lastId_],
    answered already or not, and for any other id it throws a TypeError
    and changes nothing. *)
Theorem response_is_accepted_iff_its_id_was_sent
    (ops : list Client.op) (message : Wire.message) (i : N) :
  Wire.id message = Some i →
  let c := Client.exec ops Client.new in
  ((1 ≤ i ≤ Client.lastId_ c)%N →
   (Client.onMessage_ message c).1 = Ok ()
   ∧ quiet c (Client.onMessage_ message c).2)
  ∧ (¬ (1 ≤ i ≤ Client.lastId_ c)%N →
     Client.onMessage_ message c
     = (Throw (TypeError "this.callbacks_.get(...) is not a function"), c)).
Proof.
  intros Hi c. destruct (ids_of_exec ops) as (_&_&Hcb). fold c in Hcb.
  unfold Client.onMessage_, Client.fulfil. rewrite Hi. split.
  - intros [p Hp]%Hcb. rewrite Hp. simpl. split; [done|].
    unfold quiet. by repeat case_match.
  - intros Hno. destruct (Client.callbacks_ c !! i) as [p|] eqn:Hp; [|done].
    destruct Hno. apply Hcb. by exists p.
Qed.

Lemma response_is_accepted_iff_its_id_was_sent_witness :
  let c := Client.exec [Client.Create (Some "Counter")] Client.new in
  ((1 ≤ 1 ≤ Client.lastId_ c)%N →
   (Client.onMessage_ (response 1 Wire.RUndef) c).1 = Ok ()
   ∧ quiet c (Client.onMessage_ (response 1 Wire.RUndef) c).2)
  ∧ (¬ (1 ≤ 2 ≤ Client.lastId_ c)%N →
     Client.onMessage_ (response 2 Wire.RUndef) c
     = (Throw (TypeError "this.callbacks_.get(...) is not a function"), c)).
Proof.
  intros c. split.
  - apply (response_is_accepted_iff_its_id_was_sent
             [Client.Create (Some "Counter")] (response 1 Wire.RUndef) 1
             eq_refl).
  - apply (response_is_accepted_iff_its_id_was_sent
             [Client.Create (Some "Counter")] (response 2 Wire.RUndef) 2
             eq_refl).
Defined.

(** ** Events on the page *)

(** An event for a registered proxy whose methods do not hide the
    emitter's own (no method is named [emit_] or [listeners_], and none is
    named [__proto__], which would replace the prototype that holds
    [emit_]) calls the listeners that the proxy has for the event's name,
    in order, with the event's arguments, and changes nothing else on the
    Client. *)
Theorem event_calls_the_listeners_of_its_proxy
    (message : Wire.message) (c : Client.t) (r : nat) (p : Client.proxy)
    (a : list value) :
  Wire.id message = None →
  Client.objects_ c !! Wire.objectId message = Some r →
  Client.proxies c !! r = Some p →
  "emit_" ∉ Client.stubs p →
  "__proto__" ∉ Client.stubs p →
  "listeners_" ∉ Client.stubs p →
  Wire.args message = Some a →
  Client.onMessage_ message c
  = (Ok (),
     Client.Make (Client.lastId_ c) (Client.callbacks_ c) (Client.objects_ c)
       (Client.proxies c) (Client.promises c) (Client.sent c)
       (Client.calls c ++
          ((λ h, Client.Call r h a) <$>
             default [] (EventEmitter.listeners_ (Client.emitter p)
                           !! Wire.method message)))).
Proof.
  intros Hid Hr Hp He Hproto Hl Ha. unfold Client.onMessage_, Client.inherits.
  rewrite Hid, Hr, Hp, Ha.
  rewrite (bool_decide_eq_false_2 ("emit_" ∈ Client.stubs p)) by done.
  rewrite (bool_decide_eq_true_2 ("__proto__" ∉ Client.stubs p)) by done.
  simpl. rewrite bool_decide_eq_false_2 by done.
  unfold Client.log, EventEmitter.emit_. do 3 f_equal.
  destruct (EventEmitter.listeners_ _ !! _); simpl; [|done].
  by rewrite <-list_fmap_compose.
Qed.

Lemma event_calls_the_listeners_of_its_proxy_witness :
  let c :=
    Client.exec [Client.On 0 (Some "changed") 7; Client.On 0 (Some "changed") 8;
                 Client.On 0 (Some "other") 9] client_with_proxy in
  Wire.id changed = None
  ∧ Client.objects_ c !! Wire.objectId changed = Some 0
  ∧ called_by c (Client.onMessage_ changed c).2
    = [Client.Call 0 7 [VNum 1]; Client.Call 0 8 [VNum 1]].
Proof.
  intros c.
  assert (Client.objects_ c !! Wire.objectId changed = Some 0) as Hr
    by (vm_compute; reflexivity).
  split; [reflexivity|]. split; [exact Hr|].
  set (p := default (Client.Proxy (EventEmitter.new None) [])
                    (Client.proxies c !! 0)).
  assert (Client.proxies c !! 0 = Some p) as Hp by (vm_compute; reflexivity).
  assert ("emit_" ∉ Client.stubs p) as He by compute_done.
  assert ("__proto__" ∉ Client.stubs p) as Hproto by compute_done.
  assert ("listeners_" ∉ Client.stubs p) as Hl by compute_done.
  rewrite (event_calls_the_listeners_of_its_proxy
             changed c 0 p [VNum 1] eq_refl Hr Hp He Hproto Hl eq_refl).
  unfold called_by. cbn [snd Client.calls]. rewrite drop_app_length.
  vm_compute. reflexivity.
Defined.

(** A host method named [__proto__] takes [on], [off] and [emit_] away
    from the proxy: the page cannot register a listener and an event for
    the proxy throws, while a call of [object.__proto__] is a call of the
    stub. *)
Example method_named___proto___hides_the_emitter :
  let c := (Client.wrap_ (Some "create#Odd#1#") (Some ["__proto__"])
                         Client.new).2 in
  let message := Wire.event "create#Odd#1#" (Some "changed") [VNum 1] in
  Client.on 0 (Some "changed") 7 c
  = (Throw (TypeError "object.on is not a function"), c)
  ∧ Client.onMessage_ message c
    = (Throw (TypeError "this.objects_.get(...).emit_ is not a function"), c)
  ∧ Client.sent (Client.invoke 0 "__proto__" [] c).2
    = [Wire.Message None None VUndef (Some "create#Odd#1#")
                    (Some "__proto__") (Some []) (Some 1%N) Wire.RUndef].
Proof. repeat split; vm_compute; reflexivity. Qed.

(** Line 161 gives the proxy an own property for every described name. A
    host method called [emit_] therefore hides the emitter's [emit_]: an
    event for such a proxy calls no listener; the Client sends the host an
    invocation of [emit_] with the event's name and arguments instead. *)
Theorem method_named_emit__hides_the_listeners
    (message : Wire.message) (c : Client.t) (r : nat) (p : Client.proxy)
    (a : list value) :
  Wire.id message = None →
  Client.objects_ c !! Wire.objectId message = Some r →
  Client.proxies c !! r = Some p →
  "emit_" ∈ Client.stubs p →
  Wire.args message = Some a →
  let c' := (Client.onMessage_ message c).2 in
  (Client.onMessage_ message c).1 = Ok ()
  ∧ Client.calls c' = Client.calls c
  ∧ Client.sent c'
    = Client.sent c ++
        [Wire.Message None None VUndef
           (EventEmitter.objectId_ (Client.emitter p)) (Some "emit_")
           (Some (Client.value_of (Wire.method message) :: a))
           (Some (N.succ (Client.lastId_ c))) Wire.RUndef].
Proof.
  intros Hid Hr Hp He Ha c'. unfold c', Client.onMessage_.
  rewrite Hid, Hr, Hp, Ha. by rewrite bool_decide_eq_true_2 by done.
Qed.

Lemma method_named_emit__hides_the_listeners_witness :
  let c0 := (Client.wrap_ (Some "create#Odd#1#") (Some ["emit_"])
                          Client.new).2 in
  let c := (Client.on 0 (Some "changed") 7 c0).2 in
  let message := Wire.event "create#Odd#1#" (Some "changed") [VNum 1] in
  let c' := (Client.onMessage_ message c).2 in
  Client.objects_ c !! Wire.objectId message = Some 0
  ∧ (Client.onMessage_ message c).1 = Ok ()
  ∧ Client.calls c' = Client.calls c
  ∧ Client.sent c'
    = Client.sent c ++
        [Wire.Message None None VUndef (Some "create#Odd#1#") (Some "emit_")
           (Some [VStr "changed"; VNum 1])
           (Some (N.succ (Client.lastId_ c))) Wire.RUndef].
Proof.
  intros c0 c message c'.
  assert (Client.objects_ c !! Wire.objectId message = Some 0) as Hr
    by (vm_compute; reflexivity).
  split; [exact Hr|].
  apply (method_named_emit__hides_the_listeners
           message c 0
           (Client.Proxy
              (EventEmitter.on (Some "changed") 7
                 (EventEmitter.new (Some "create#Odd#1#"))) ["emit_"])
           [VNum 1] eq_refl Hr eq_refl);
    [apply list_elem_of_here|reflexivity].
Defined.

(** * Both sides together *)

Section Server_answers.
Import Server Host.
Local Open Scope server_scope.

(** What the Server sends while it handles a message is an event, which
    carries no id, or carries the id of that message, which is then a
    request or an invocation. *)
Lemma onMessage__answers message s :
  Forall (λ reply,
            Wire.id reply = None
            ∨ (Wire.id reply = Wire.id message
               ∧ (is_request message = true ∨ is_invoke message = true)))
         (sent_by s (onMessage_ message s).2).
Proof.
  destruct (is_request message) eqn:Hreq.
  - pose proof (onMessage__registers message s) as (_ & _ & Hstep).
    simpl in Hstep. destruct (mints s message) eqn:Hmints.
    + destruct Hstep as (_ & _ & _ & [->|[methods ->]]); [constructor|].
      apply Forall_cons_2; [|constructor]. right. by split; [|left].
    + clear Hstep. unfold is_request in Hreq. unfold mints in Hmints.
      destruct (truthy_name (Wire.create message)) eqn:Hc.
      * destruct (onMessage__create_fails message s Hc) as [e ->].
        { destruct (factories_ s !! _) as [c|]; [|done].
          by destruct (construct c). }
        unfold sent_by. simpl. rewrite drop_all. constructor.
      * simpl in Hreq. congruence.
  - destruct (truthy (Wire.dispose message)) eqn:Hd.
    + rewrite onMessage__dispose by done. unfold objects_delete.
      destruct (Wire.objectId message); unfold sent_by; simpl;
        rewrite drop_all; constructor.
    + assert (is_invoke message = true) as Hi
        by (unfold is_invoke; by rewrite Hreq, Hd).
      rewrite onMessage__invoke by done. unfold bind, sendMessage_.
      destruct (call_sends (objects_get (Wire.objectId message) s)
                  (Wire.method message) (Wire.args message) s)
        as (_ & events & Hout & Hev).
      destruct (call _ _ _ s) as [[v|e] s1]; simpl in *.
      * erewrite sent_by_app
          by (simpl; rewrite Hout, <-(assoc_L (++)); reflexivity).
        apply Forall_app. split.
        -- eapply Forall_impl; [exact Hev|]. simpl. intros ? [? _]. by left.
        -- apply Forall_cons_2; [|constructor]. right.
           split; [done|]. by right.
      * erewrite sent_by_app by done.
        eapply Forall_impl; [exact Hev|]. simpl. intros ? [? _]. by left.
Qed.

Lemma run_outbox messages : ∀ s,
  outbox (run messages s) = outbox s ++ sent_by s (run messages s).
Proof.
  induction messages as [|m messages IH]; intros s.
  - simpl. unfold sent_by. by rewrite drop_all, app_nil_r.
  - rewrite run_cons.
    pose proof (onMessage__registers m s) as (_ & Hm & _). simpl in Hm.
    assert (outbox (run messages (onMessage_ m s).2)
            = outbox s ++ sent_by s (onMessage_ m s).2
                ++ sent_by (onMessage_ m s).2
                     (run messages (onMessage_ m s).2)) as E.
    { rewrite IH at 1. rewrite Hm at 1. by rewrite <-(assoc_L (++)). }
    rewrite E at 1. f_equal. symmetry. by apply sent_by_app.
Qed.

(** So every response that a Server sends answers a request or an
    invocation that it handled. *)
Lemma run_answers messages : ∀ s,
  Forall (λ reply,
            Wire.id reply = None
            ∨ ∃ m, m ∈ messages ∧ Wire.id reply = Wire.id m
                   ∧ (is_request m = true ∨ is_invoke m = true))
         (sent_by s (run messages s)).
Proof.
  induction messages as [|m messages IH]; intros s.
  - simpl. unfold sent_by. rewrite drop_all. constructor.
  - rewrite run_cons.
    pose proof (onMessage__registers m s) as (_ & Hm & _). simpl in Hm.
    assert (sent_by s (run messages (onMessage_ m s).2)
            = sent_by s (onMessage_ m s).2
                ++ sent_by (onMessage_ m s).2
                     (run messages (onMessage_ m s).2)) as ->.
    { apply sent_by_app. rewrite run_outbox at 1. rewrite Hm at 1.
      by rewrite <-(assoc_L (++)). }
    apply Forall_app. split.
    + eapply Forall_impl; [apply onMessage__answers|]. simpl.
      intros reply [?|[? ?]]; [by left|]. right. exists m.
      split; [by left|done].
    + eapply Forall_impl; [apply IH|]. simpl.
      intros reply [?|(m' & ? & ?)]; [by left|]. right. exists m'.
      split; [by right|done].
Qed.

End Server_answers.

Section Client_pending.
Import Client.

(** What an operation does to the callbacks and to the promises: nothing,
    or a response settles the promise that the callback of its id holds,
    or a message is sent with a new id and a new pending promise. *)
Lemma step_callbacks o c :
  let c' := (step o c).2 in
  (callbacks_ c' = callbacks_ c ∧ promises c' = promises c)
  ∨ (∃ message i q x,
       o = Dispatch message ∧ Wire.id message = Some i
       ∧ callbacks_ c !! i = Some q
       ∧ callbacks_ c' = callbacks_ c
       ∧ promises c' = <[q := x]> (promises c))
  ∨ (callbacks_ c'
     = <[N.succ (lastId_ c) := length (promises c)]> (callbacks_ c)
     ∧ promises c' = promises c ++ [None]).
Proof.
  destruct o; simpl;
    unfold create, lookup, resume, invoke, dispose, on, off, onMessage_,
      wrap_, stub, sendMessage_, fulfil, log, proxy_set, bind, ret;
    repeat case_match; simplify_eq/=; eauto 10.
  right. left. eexists _, _, _, _. by split_and!.
Qed.

(** Every callback of a Client that the page can find holds a promise of
    the store. *)
Lemma callbacks_valid_reachable c j q :
  reachable c → callbacks_ c !! j = Some q → q < length (promises c).
Proof.
  intros [ops ->]. revert j q.
  cut (∀ c, (∀ j q, callbacks_ c !! j = Some q → q < length (promises c)) →
            ∀ j q, callbacks_ (exec ops c) !! j = Some q →
                   q < length (promises (exec ops c))).
  { intros H. apply H. intros j q. simpl. by rewrite lookup_empty. }
  induction ops as [|o ops IH]; intros c Hc; [done|].
  apply IH.
  destruct (step_callbacks o c)
    as [[-> ->]|[(m&i&q0&x&_&_&_&->&->)|[-> ->]]]; intros j q Hj.
  - by apply (Hc j).
  - rewrite length_insert. by apply (Hc j).
  - rewrite length_app. simpl.
    apply lookup_insert_Some in Hj as [[_ <-]|[_ Hj]]; [lia|].
    apply (Hc j) in Hj. lia.
Qed.

(** A pending promise whose callback is under one id only stays pending
    as long as no message with that id is dispatched. *)
Lemma pending_stays_pending ops i p : ∀ c,
  promises c !! p = Some None →
  (∀ j, callbacks_ c !! j = Some p → j = i) →
  Forall (λ o, ∀ reply, o = Dispatch reply → Wire.id reply ≠ Some i) ops →
  promises (exec ops c) !! p = Some None.
Proof.
  induction ops as [|o ops IH]; intros c Hp Hcb Hops; [done|].
  apply Forall_cons in Hops as [Ho Hops]. simpl. apply IH; [| |done].
  - destruct (step_callbacks o c)
      as [[_ ->]|[(m&j&q&x&->&Hj&Hq&_&->)|[_ ->]]].
    + done.
    + rewrite list_lookup_insert_ne; [done|]. intros ->.
      apply (Hcb j) in Hq as ->. by apply (Ho m).
    + by apply lookup_app_l_Some.
  - destruct (step_callbacks o c)
      as [[-> _]|[(m&j&q&x&_&_&_&->&_)|[-> _]]]; try done.
    intros j [[_ Hj]|[_ Hj]]%lookup_insert_Some; [|by apply (Hcb j)].
    apply lookup_lt_Some in Hp. lia.
Qed.

End Client_pending.

(** [dispose()] of a proxy: the Client sends one message, under a new
    request id and with a new promise, which is pending, and forgets the
    proxy at once. The Server takes that message for a disposal: it
    removes the ObjectId from its registry and sends nothing while it
    handles the message. The promise is never fulfilled: whatever messages
    a Server handles, if those among them that carry the id of the
    disposal are disposals (the Client uses each id once), then nothing it
    sends carries that id; and whatever the page does with a Client that
    it can find, as long as the channel delivers no message with that id
    the promise stays pending. *)
Theorem dispose_reaches_the_Server_and_is_not_answered
    (c : Client.t) (s : Server.t) (objectId : string) :
  let c' := (Client.dispose (Some objectId) c).2 in
  let message :=
    Wire.Message None None (VStr "dispose") (Some objectId) None None
                 (Some (N.succ (Client.lastId_ c))) Wire.RUndef in
  let s' := (Server.onMessage_ message s).2 in
  (Client.dispose (Some objectId) c).1 = Ok ()
  ∧ Client.sent c' = Client.sent c ++ [message]
  ∧ Client.objects_ c' = delete (Some objectId) (Client.objects_ c)
  ∧ Client.promises c' = Client.promises c ++ [None]
  ∧ Client.callbacks_ c' !! N.succ (Client.lastId_ c)
    = Some (length (Client.promises c))
  ∧ (Server.onMessage_ message s).1 = Ok ()
  ∧ Server.objects_ s' = delete objectId (Server.objects_ s)
  ∧ sent_by s s' = []
  ∧ (∀ messages s0,
       Forall (λ m, Wire.id m = Wire.id message →
                    is_request m = false ∧ is_invoke m = false) messages →
       Forall (λ reply, Wire.id reply ≠ Wire.id message)
              (sent_by s0 (Server.run messages s0)))
  ∧ (reachable c →
     ∀ ops,
       Forall (λ o, ∀ reply, o = Client.Dispatch reply →
                             Wire.id reply ≠ Wire.id message) ops →
       Client.promises (Client.exec ops c') !! length (Client.promises c)
       = Some None).
Proof.
  intros c' message s'. unfold c', s'.
  rewrite (onMessage__dispose message s) by done.
  unfold Client.dispose, Client.bind, Client.sendMessage_. simpl.
  split_and!; try done.
  - apply lookup_insert_eq.
  - unfold sent_by. simpl. apply drop_all.
  - intros messages s0 Hm.
    eapply Forall_impl; [apply run_answers|]. simpl.
    intros reply [->|(m & Hin & -> & Hkind)]; [done|]. intros E.
    eapply Forall_forall in Hm; [|exact Hin].
    destruct (Hm E) as [Hr Hi]. destruct Hkind; congruence.
  - intros Hreach ops Hops.
    apply (pending_stays_pending ops (N.succ (Client.lastId_ c))); simpl.
    + by apply list_lookup_middle.
    + intros j [[<- _]|[_ Hj]]%lookup_insert_Some; [done|].
      apply (callbacks_valid_reachable c) in Hj; [lia|done].
    + done.
Qed.

(** On the example page: the proxy of the Counter is disposed; the Server
    then handles the disposal and an invocation under the next id, and
    the page is delivered what the Server sent. *)
Lemma dispose_reaches_the_Server_and_is_not_answered_witness :
  let c :=
    Client.exec [Client.Create (Some "Counter");
                 Client.Dispatch
                   (Wire.describe_reply (Some 1%N) ["increment"; "fail"]
                                        "create#Counter#1#");
                 Client.Resume 0] Client.new in
  let c' := (Client.dispose (Some "create#Counter#1#") c).2 in
  let message :=
    Wire.Message None None (VStr "dispose") (Some "create#Counter#1#") None
                 None (Some (N.succ (Client.lastId_ c))) Wire.RUndef in
  let messages :=
    [message; Example.invoke "create#Counter#1#" "increment" [] 3] in
  let ops :=
    Client.Dispatch <$> sent_by server_with_counter
                          (Server.run messages server_with_counter) in
  reachable c
  ∧ Forall (λ m, Wire.id m = Wire.id message →
                 is_request m = false ∧ is_invoke m = false) messages
  ∧ Forall (λ reply, Wire.id reply ≠ Wire.id message)
           (sent_by server_with_counter
                    (Server.run messages server_with_counter))
  ∧ Forall (λ o, ∀ reply, o = Client.Dispatch reply →
                          Wire.id reply ≠ Wire.id message) ops
  ∧ Client.promises (Client.exec ops c') !! length (Client.promises c)
    = Some None.
Proof.
  intros c c' message messages ops.
  assert (reachable c) as Hreach by (by eexists).
  assert (Forall (λ m, Wire.id m = Wire.id message →
                       is_request m = false ∧ is_invoke m = false) messages)
    as Hm.
  { repeat constructor. simpl. discriminate. }
  destruct (dispose_reaches_the_Server_and_is_not_answered
              c server_with_counter "create#Counter#1#")
    as (_ & _ & _ & _ & _ & _ & _ & _ & Hserver & Hclient).
  pose proof (Hserver messages server_with_counter Hm) as Hsent.
  assert (Forall (λ o, ∀ reply, o = Client.Dispatch reply →
                                Wire.id reply ≠ Wire.id message) ops) as Hops.
  { unfold ops. apply Forall_fmap. eapply Forall_impl; [exact Hsent|].
    simpl. by intros reply Hreply ? [= <-]. }
  split; [exact Hreach|]. split; [exact Hm|]. split; [exact Hsent|].
  split; [exact Hops|]. exact (Hclient Hreach ops Hops).
Defined.

(** [create('')] and [create(undefined)]: line 58 of the Server tests the
    name for truth, so the request is not taken for a create (nor for a
    lookup or a disposal) but for an invocation without objectId. The
    handler throws a TypeError, the Server is as it was, and no response
    is sent for the request. *)
Theorem create_without_a_name_is_taken_for_an_invocation
    (service : option string) (c : Client.t) (s : Server.t) :
  truthy_name service = false →
  let c' := (Client.create service c).2 in
  let message :=
    Wire.Message service None VUndef None None None
                 (Some (N.succ (Client.lastId_ c))) Wire.RUndef in
  Client.sent c' = Client.sent c ++ [message]
  ∧ is_invoke message = true
  ∧ Server.onMessage_ message s
    = (Throw (TypeError "Cannot read property of undefined"), s).
Proof.
  intros Hname c' message.
  assert (is_invoke message = true) as Hi.
  { unfold is_invoke, is_request. simpl. by rewrite Hname. }
  split; [done|]. split; [done|].
  apply is_invoke_spec in Hi as [Hr Hd].
  by rewrite onMessage__invoke.
Qed.

Lemma create_without_a_name_is_taken_for_an_invocation_witness :
  let c' := (Client.create (Some "") Client.new).2 in
  let message :=
    Wire.Message (Some "") None VUndef None None None
                 (Some (N.succ (Client.lastId_ Client.new))) Wire.RUndef in
  truthy_name (Some "") = false
  ∧ Client.sent c' = Client.sent Client.new ++ [message]
  ∧ is_invoke message = true
  ∧ Server.onMessage_ message Example.server
    = (Throw (TypeError "Cannot read property of undefined"), Example.server).
Proof.
  intros c' message. split; [reflexivity|].
  exact (create_without_a_name_is_taken_for_an_invocation
           (Some "") Client.new Example.server eq_refl).
Defined.



(** The run of the witness, evaluated. *)
Example create_round_trip_evaluated :
  let c1 := (Client.create (Some "Counter") Client.new).2 in
  let request := default Wire.empty (last (Client.sent c1)) in
  let s1 := (Server.onMessage_ request Example.server).2 in
  let reply := default Wire.empty (last (Server.outbox s1)) in
  let c2 := (Client.onMessage_ reply c1).2 in
  let c3 := (Client.resume 0 c2).2 in
  Server.objects_ s1 !! "create#Counter#1#" = Some (Some 1)
  ∧ Client.objects_ c3 !! Some "create#Counter#1#" = Some 0
  ∧ Client.proxies c3 !! 0
    = Some (Client.Proxy (EventEmitter.new (Some "create#Counter#1#"))
                         ["increment"; "fail"]).
Proof. repeat split; vm_compute; reflexivity. Qed.
